(** * CoBAUI: the adaptation controller, its producers and its adaptive widgets

    A shallow embedding of the TypeScript sources of the CoBAUI library:

      - the interfaces [ContextParam], [AdaptationAction] and [AdaptationRule]
        ([context-param.interface.ts], [adaptation-action.interface.ts],
        [adaptation-rule.interface.ts]);
      - the abstract classes [ContextProvider] ([context-provider.base]),
        [RuleProvider] ([rule-provider.base]), [RuleEvaluator]
        ([rule-evaluator.base.ts]) and [AdaptiveWidget]
        ([adaptive-widget.base.ts]);
      - the service [AdaptationController] ([adaptation-controller.ts]).

    The classes are glued together with RxJS 6 ([BehaviorSubject], [Subject],
    [combineLatest], [filter], [subscribe]; the import paths ['rxjs'] and
    ['rxjs/operators'] are those of version 6).  The library is not part of
    the repository; the few primitives the classes call are embedded below
    next to the code that calls them, following the library:

      - [BehaviorSubject._subscribe]: a [BehaviorSubject] stores its current
        value and hands it to every new subscriber at subscription time;
      - [CombineLatestSubscriber]: [combineLatest] keeps one slot per input
        ([values]) and a counter of inputs that have not yet delivered
        ([toRespond]); it emits a copy of the slots on every delivery once
        the counter is zero;
      - [Subject.next] walks a copy of the observer list;
      - [SafeSubscriber.__tryOrUnsub], [FilterSubscriber._next]: an error
        thrown by a callback given to [subscribe], or by a [filter] predicate
        upstream of it, is caught by the subscriber, which closes its own
        subscription and hands the error to [hostReportError] (the
        repository never sets [useDeprecatedSynchronousErrorHandling]).

    JavaScript arrays are mutable objects.  Producers hand the very array they
    keep mutating to their subject ([this.rules$.next(this.rules)]), so arrays
    live in a store and are passed around by reference. *)

From Stdlib Require Import ZArith List Bool Arith Lia.
From stdpp Require Import base tactics option list strings.
Import ListNotations.

Set Default Proof Using "Type".
Local Open Scope list_scope.

(* ===================================================================== *)
(** ** Data model                                                         *)
(* ===================================================================== *)

(** [value: any] and the values of [params]: the JavaScript values a JSON rule
    file or a sensor reading can carry (numbers as integers). *)
Inductive JsValue : Type :=
| JsUndefined
| JsNull
| JsBoolean (b : bool)
| JsNumber (z : Z)
| JsString (s : string).

(** [type ContextOfUse = "user" | "platform" | "environment"] *)
Inductive ContextOfUse : Type := user | platform | environment.

(** [type ContextValueType = "string" | "number" | "boolean" | "array" | "object"] *)
Inductive ContextValueType : Type := TString | TNumber | TBoolean | TArray | TObject.

(** [interface ContextParam]; the optional [type?] is an [option]. *)
Record ContextParam : Type := mkContextParam {
  contextOfUse : ContextOfUse;
  type : option ContextValueType;
  key : string;
  value : JsValue
}.

Module AdaptationAction.
(** [interface AdaptationAction]; [scope?] and [params?] are optional, so an
    action object may come without them ([None] is the absent property). *)
Record t : Type := mk {
  target : string;
  scope : option (list string);
  name : string;
  params : option (list (string * JsValue))
}.
End AdaptationAction.
Abbreviation AdaptationAction := AdaptationAction.t.

Module AdaptationRule.
(** [interface AdaptationRule] *)
Record t : Type := mk {
  name : string;
  condition : string;
  actions : list AdaptationAction
}.
End AdaptationRule.
Abbreviation AdaptationRule := AdaptationRule.t.

(** JavaScript truthiness of an object reference: every object, an empty array
    included, is truthy. *)
Definition truthy_object {A : Type} (o : A) : bool := true.

(* ===================================================================== *)
(** ** Arrays by reference, subjects and the combineLatest join           *)
(* ===================================================================== *)

(** A reference to an array in the store. *)
Abbreviation ref := nat (only parsing).

(** The store of arrays of [A]: cell [r] holds the current contents of the
    array object [r]. *)
Abbreviation Heap A := (list (list A)) (only parsing).

Section Store.
Context {A : Type}.

(** A new array object ([[]], or the result of [Array.prototype.filter]). *)
Definition alloc (contents : list A) (h : Heap A) : Heap A * ref :=
  (h ++ [contents], length h).

(** Reading an array through its reference. *)
Definition deref (h : Heap A) (r : ref) : list A := default [] (h !! r).

(** [array.push(x)]: the array object is extended in place. *)
Definition push (r : ref) (x : A) (h : Heap A) : Heap A :=
  alter (fun contents => contents ++ [x]) r h.
End Store.

(** [BehaviorSubject<A[]>]: the current value (an array reference) and the
    observers.  The controller is the only subscriber of a producer's subject;
    an observer is the inner subscriber that [combineLatest] created for one of
    its inputs, identified by its [outerIndex]. *)
Record BehaviorSubject : Type := mkSubject {
  current : ref;
  observers : list nat
}.

(** A producer object: [ContextProvider] ([contextParams], [contextParams$])
    or [RuleProvider] ([rules], [rules$]).  Both classes keep one array field
    and one subject. *)
Record Provider : Type := mkProvider {
  items : ref;
  subject : BehaviorSubject
}.

(** [CombineLatestSubscriber]: [values] holds one slot per input, [None] being
    the [NONE] marker of a slot that has not received anything yet. *)
Record CombineLatestSubscriber : Type := mkJoin {
  values : list (option ref);
  toRespond : nat
}.

(** One side of the controller (context or rules): the array store, the
    producer services the injector knows (a token is an index into
    [services]), the controller's list of registered producers
    ([contextProviders] / [ruleProviders]) and the join behind the current
    subscription ([cpSubscription] / [rpSubscription]). *)
Record Aggregator (A : Type) : Type := mkAggregator {
  arrays : Heap A;
  services : list Provider;
  registered : list nat;
  join : CombineLatestSubscriber
}.
Arguments mkAggregator {A} _ _ _ _.
Arguments arrays {A} _.
Arguments services {A} _.
Arguments registered {A} _.
Arguments join {A} _.

Section Rx.
Context {A : Type}.

(** The value a [NONE] slot would contribute to [[].concat(...values)]; the
    join never emits while a slot is [NONE]. *)
Definition slot_contents (h : Heap A) (slot : option ref) : list A :=
  match slot with
  | Some r => deref h r
  | None => []
  end.

(** [map(nestedParams => [].concat(...nestedParams))] applied to
    [values.slice()]: a fresh array with the contents, at this moment, of
    every array the slots refer to. *)
Definition merged (h : Heap A) (slots : list (option ref)) : list A :=
  concat (map (slot_contents h) slots).

(** [CombineLatestSubscriber.notifyNext]:
<<
    const oldVal = values[outerIndex];
    const toRespond = !this.toRespond ? 0
                    : oldVal === NONE ? --this.toRespond : this.toRespond;
    values[outerIndex] = innerValue;
    if (toRespond === 0) this.destination.next(values.slice());
>>
    The result carries the merged array when the join emits. *)
Definition notifyNext (h : Heap A) (outerIndex : nat) (innerValue : ref)
    (j : CombineLatestSubscriber) : CombineLatestSubscriber * option (list A) :=
  let oldVal := values j !! outerIndex in
  let toRespond' :=
    if toRespond j =? 0 then 0
    else match oldVal with
         | Some None => toRespond j - 1
         | _ => toRespond j
         end in
  let values' := <[outerIndex := Some innerValue]> (values j) in
  (mkJoin values' toRespond',
   if toRespond' =? 0 then Some (merged h values') else None).

(** [Subject.next(v)]: every observer in (a copy of) the observer list is
    notified in subscription order.  The merged arrays the join emits on the
    way are collected in order. *)
Fixpoint deliver (h : Heap A) (v : ref) (obs : list nat)
    (j : CombineLatestSubscriber) : CombineLatestSubscriber * list (list A) :=
  match obs with
  | [] => (j, [])
  | outerIndex :: obs' =>
      let '(j1, out) := notifyNext h outerIndex v j in
      let '(j2, outs) := deliver h v obs' j1 in
      (j2, option_list out ++ outs)
  end.

(** [subject.next(this.items)] of producer [p]: the subject's current value
    becomes the producer's array (the same object, not a copy), then the
    observers are notified. *)
Definition next (p : nat) (w : Aggregator A) : Aggregator A * list (list A) :=
  match services w !! p with
  | None => (w, [])
  | Some pr =>
      let v := items pr in
      let pr' := mkProvider (items pr) (mkSubject v (observers (subject pr))) in
      let '(j, outs) := deliver (arrays w) v (observers (subject pr)) (join w) in
      (mkAggregator (arrays w) (<[p := pr']> (services w)) (registered w) j, outs)
  end.

(** [Subscription.unsubscribe()] on the previous join: its inner subscribers
    are removed from the observer lists of the subjects. *)
Definition unsubscribe (pr : Provider) : Provider :=
  mkProvider (items pr) (mkSubject (current (subject pr)) []).

(** [combineLatest(...observables)] being subscribed: the inputs are
    subscribed to in order; subscribing to a [BehaviorSubject] adds the
    observer and immediately delivers the subject's current value to it
    ([i] is the [outerIndex] of the head of [toks]; every registered token
    has a service, see [register]). *)
Fixpoint subscribeToAll (h : Heap A) (i : nat) (toks : list nat)
    (ps : list Provider) (j : CombineLatestSubscriber)
    : list Provider * CombineLatestSubscriber * list (list A) :=
  match toks with
  | [] => (ps, j, [])
  | tok :: toks' =>
      match ps !! tok with
      | None => subscribeToAll h (S i) toks' ps j
      | Some pr =>
          let sub := mkSubject (current (subject pr)) (observers (subject pr) ++ [i]) in
          let ps1 := <[tok := mkProvider (items pr) sub]> ps in
          let '(j1, out) := notifyNext h i (current (subject pr)) j in
          let '(ps2, j2, outs) := subscribeToAll h (S i) toks' ps1 j1 in
          (ps2, j2, option_list out ++ outs)
      end
  end.

(** The body shared by [registerContextProvider] and [registerRuleProvider]:
<<
    const provider = this.injector.get(token);
    this.providers.push(provider);
    const observables = this.providers.map(p => p.getObservable());
    const merged$ = combineLatest(...observables).pipe(map(nested => [].concat(...nested)));
    this.subscription.unsubscribe();
    this.subscription = merged$.subscribe(xs => this.update(xs));
>>
    [None] when the injector has no service for the token (the lookup
    throws).  Otherwise the new aggregator and the merged arrays handed to
    the subscriber callback during the [subscribe] call. *)
Definition register (tok : nat) (w : Aggregator A)
    : option (Aggregator A * list (list A)) :=
  match services w !! tok with
  | None => None
  | Some _ =>
      let regs := registered w ++ [tok] in
      let ps0 := map unsubscribe (services w) in
      let j0 := mkJoin (replicate (length regs) None) (length regs) in
      let '(ps, j, outs) := subscribeToAll (arrays w) 0 regs ps0 j0 in
      Some (mkAggregator (arrays w) ps regs j, outs)
  end.

(** The constructor of a producer service: an empty array for the field and
    a [BehaviorSubject] created with another empty array. *)
Definition construct (w : Aggregator A) : Aggregator A * nat :=
  let '(h1, r1) := alloc [] (arrays w) in
  let '(h2, r2) := alloc [] h1 in
  (mkAggregator h2 (services w ++ [mkProvider r1 (mkSubject r2 [])])
                (registered w) (join w),
   length (services w)).

(** The array the subject of producer [tok] currently holds. *)
Definition currentOf (ps : list Provider) (tok : nat) : ref :=
  from_option (fun pr => current (subject pr)) 0 (ps !! tok).

(** The latest snapshot of producer [tok]: the contents, now, of the array
    its subject holds. *)
Definition latest (w : Aggregator A) (tok : nat) : list A :=
  deref (arrays w) (currentOf (services w) tok).

(** What producer [p] has just handed to its subject (nothing when there
    is no such producer). *)
Definition emitted (w : Aggregator A) (p : nat) : list (list A) :=
  match services w !! p with
  | Some pr => [deref (arrays w) (current (subject pr))]
  | None => []
  end.

(** The contents of the producer's own array field. *)
Definition contents (w : Aggregator A) (p : nat) : list A :=
  from_option (fun pr => deref (arrays w) (items pr)) [] (services w !! p).
End Rx.

(** An aggregator before anything was constructed or registered
    ([new Subscription()] has no join behind it). *)
Definition emptyAggregator {A : Type} : Aggregator A :=
  mkAggregator [] [] [] (mkJoin [] 0).

(* ===================================================================== *)
(** ** context-provider.base.ts                                           *)
(* ===================================================================== *)

(** The methods of the abstract class [ContextProvider], acting on producer
    [p] of the context side.  [items] is the field [contextParams], [subject]
    the field [contextParams$]. *)
Module ContextProvider.

(** [enum UpdateMethod].  With [INTERVAL] the constructor installs a timer
    whose every tick calls [updateContext]. *)
Inductive UpdateMethod : Type := EVENT_BASED | INTERVAL.

(** [addContextParam(newParam)]:
<<
    if (this.contextParams.filter(param => param.key === newParam.key)) {
      this.contextParams.push(newParam);
    }
>>
    The condition is the array returned by [filter]. *)
Definition addContextParam (p : nat) (newParam : ContextParam)
    (w : Aggregator ContextParam) : Aggregator ContextParam :=
  match services w !! p with
  | None => w
  | Some cp =>
      if truthy_object
           (List.filter (fun param => String.eqb (key param) (key newParam))
                        (deref (arrays w) (items cp)))
      then mkAggregator (push (items cp) newParam (arrays w))
                        (services w) (registered w) (join w)
      else w
  end.

(** [removeContextParam(key)]:
    [this.contextParams = this.contextParams.filter(param => param.key !== key)];
    the field is rebound to the new array [filter] returns. *)
Definition removeContextParam (p : nat) (k : string)
    (w : Aggregator ContextParam) : Aggregator ContextParam :=
  match services w !! p with
  | None => w
  | Some cp =>
      let '(h, r) :=
        alloc (List.filter (fun param => negb (String.eqb (key param) k))
                           (deref (arrays w) (items cp)))
              (arrays w) in
      mkAggregator h (<[p := mkProvider r (subject cp)]> (services w))
                   (registered w) (join w)
  end.

(** [getContextParam(key)]: [this.contextParams.find(param => param.key == key)];
    [None] is [undefined]. *)
Definition getContextParam (p : nat) (k : string)
    (w : Aggregator ContextParam) : option ContextParam :=
  match services w !! p with
  | None => None
  | Some cp =>
      List.find (fun param => String.eqb (key param) k)
                (deref (arrays w) (items cp))
  end.

(** [modifyContextParam(key, newValue)]:
<<
    let oldParam = this.getContextParam(key);
    if (oldParam) {
      this.removeContextParam(key);
      this.addContextParam({contextOfUse: oldParam.contextOfUse, type: oldParam.type,
                            key: oldParam.key, value: newValue});
    }
>> *)
Definition modifyContextParam (p : nat) (k : string) (newValue : JsValue)
    (w : Aggregator ContextParam) : Aggregator ContextParam :=
  match getContextParam p k w with
  | Some oldParam =>
      addContextParam p
        (mkContextParam (contextOfUse oldParam) (type oldParam) (key oldParam) newValue)
        (removeContextParam p k w)
  | None => w
  end.

(** [updateContext()]: [this.contextParams$.next(this.contextParams)]. *)
Definition updateContext (p : nat) (w : Aggregator ContextParam)
    : Aggregator ContextParam * list (list ContextParam) :=
  next p w.

End ContextProvider.

(* ===================================================================== *)
(** ** rule-provider.base.ts                                              *)
(* ===================================================================== *)

(** The methods of the abstract class [RuleProvider], acting on producer [p]
    of the rule side.  [items] is the field [rules], [subject] the field
    [rules$]. *)
Module RuleProvider.

(** [updateRules()]: [this.rules$.next(this.rules)]. *)
Definition updateRules (p : nat) (w : Aggregator AdaptationRule)
    : Aggregator AdaptationRule * list (list AdaptationRule) :=
  next p w.

(** [addRule(rule)]: [this.rules.push(rule); this.rules$.next(this.rules)]. *)
Definition addRule (p : nat) (rule : AdaptationRule)
    (w : Aggregator AdaptationRule)
    : Aggregator AdaptationRule * list (list AdaptationRule) :=
  match services w !! p with
  | None => (w, [])
  | Some rp =>
      next p (mkAggregator (push (items rp) rule (arrays w))
                           (services w) (registered w) (join w))
  end.

(** [removeRule(name)]:
    [this.rules = this.rules.filter(rule => rule.name !== name);
     this.rules$.next(this.rules)]. *)
Definition removeRule (p : nat) (n : string)
    (w : Aggregator AdaptationRule)
    : Aggregator AdaptationRule * list (list AdaptationRule) :=
  match services w !! p with
  | None => (w, [])
  | Some rp =>
      let '(h, r) :=
        alloc (List.filter
                 (fun rule => negb (String.eqb (AdaptationRule.name rule) n))
                 (deref (arrays w) (items rp)))
              (arrays w) in
      next p (mkAggregator h (<[p := mkProvider r (subject rp)]> (services w))
                           (registered w) (join w))
  end.

End RuleProvider.

(* ===================================================================== *)
(** ** What the system does that can be observed                          *)
(* ===================================================================== *)

(** How a call of user code ends. *)
Inductive Completion : Type := Returns | Throws.

(** The observable events, in the order they happen. *)
Inductive Event : Type :=
| ContextSnapshot (p : nat) (snapshot : list ContextParam)
    (** context provider [p] called [contextParams$.next] with this array *)
| RuleSnapshot (p : nat) (snapshot : list AdaptationRule)
    (** rule provider [p] called [rules$.next] with this array *)
| ContextUpdated (contextParams : list ContextParam)
    (** [console.debug("AC: Context updated", contextParams)] *)
| RulesUpdated (rules : list AdaptationRule)
    (** [console.debug("AC: Rules updated", rules)] *)
| Evaluate (rules : list AdaptationRule) (contextParams : list ContextParam)
    (** [this.ruleEvaluator.evaluate(rules, contextParams, callback)] is called *)
| NoRuleEvaluator
    (** [console.log("AUI: Evaluation could not be started. No RuleEvaluator set.")] *)
| Adapt (widget : nat) (action : AdaptationAction)
    (** [adapt(action)] of the widget is called *)
| AdaptationTriggered (action : AdaptationAction)
    (** [console.debug("Adaptation Controller: AdaptationAction triggered", action)] *)
| HostError (widget : nat)
    (** an error raised in the subscription of the widget is handed to the
        host for asynchronous reporting *)
| InjectorError (token : nat)
    (** [injector.get(token)] throws; the exception leaves the register call *).

(* ===================================================================== *)
(** ** adaptive-widget.base.ts and the action stream                      *)
(* ===================================================================== *)

(** An instance of (a subclass of) [AdaptiveWidget]: the constructor argument
    [name], the input [namespace], and the [adapt] method the subclass
    supplies (what matters of it here is whether the call on a given action
    returns or throws). *)
Record AdaptiveWidget : Type := mkWidget {
  name : string;
  namespace : string;
  adapt : AdaptationAction -> Completion
}.

(** [adaptationActions$: Subject<AdaptationAction>] with the widgets behind its
    observers: observer [i] is the subscription widget [i] made in
    [setupAdaptivity]. *)
Record Dispatcher : Type := mkDispatcher {
  widgets : list AdaptiveWidget;
  actionObservers : list nat
}.

Module AdaptiveWidget.

(** The [filter] predicate of [setupAdaptivity]:
<<
    action => action.target === this.name
           && (action.scope.length === 0 || action.scope.includes(this.namespace))
>>
    [None] is the [TypeError] of reading [length] of [undefined]; [&&] does
    not evaluate its right operand when the targets differ. *)
Definition addressed (w : AdaptiveWidget) (action : AdaptationAction) : option bool :=
  if String.eqb (AdaptationAction.target action) (name w) then
    match AdaptationAction.scope action with
    | None => None
    | Some sc =>
        Some (Nat.eqb (length sc) 0
              || existsb (fun ns => String.eqb ns (namespace w)) sc)
    end
  else Some false.

(** The [adapt] of the base class only writes to the console. *)
Definition base_adapt (action : AdaptationAction) : Completion := Returns.

(** [setupAdaptivity()]: the widget subscribes (through the filter) to
    [adaptationController.AdaptationActions]; the subscription object that
    [subscribe] returns is dropped. *)
Definition setupAdaptivity (i : nat) (d : Dispatcher) : Dispatcher :=
  mkDispatcher (widgets d) (actionObservers d ++ [i]).

(** The constructor: [namespace] starts as the empty string and
    [setupAdaptivity] is called.  The new widget is number
    [length (widgets d)]. *)
Definition construct (nm : string) (adapt : AdaptationAction -> Completion)
    (d : Dispatcher) : Dispatcher :=
  setupAdaptivity (length (widgets d))
    (mkDispatcher (widgets d ++ [mkWidget nm EmptyString adapt])
                  (actionObservers d)).

(** The input binding [aui-namespace] assigns the field. *)
Definition setNamespace (i : nat) (ns : string) (d : Dispatcher) : Dispatcher :=
  mkDispatcher
    (alter (fun w => mkWidget (name w) ns (adapt w)) i (widgets d))
    (actionObservers d).

(** [ngOnInit() { }] *)
Definition ngOnInit (i : nat) (d : Dispatcher) : Dispatcher := d.

(** [ngOnDestroy() { }] *)
Definition ngOnDestroy (i : nat) (d : Dispatcher) : Dispatcher := d.

End AdaptiveWidget.

Module ActionStream.

(** Closing the subscription of widget [i]: the observer leaves the list. *)
Definition close (i : nat) (d : Dispatcher) : Dispatcher :=
  mkDispatcher (widgets d)
               (List.filter (fun k => negb (Nat.eqb k i)) (actionObservers d)).

(** One observer receives the action: the [filter] operator runs the
    predicate and forwards to the subscriber wrapping [adapt].  An error in
    the predicate or in [adapt] closes this subscription and is reported to
    the host; it does not propagate to [Subject.next]. *)
Definition notify (action : AdaptationAction) (i : nat) (d : Dispatcher)
    : Dispatcher * list Event :=
  match widgets d !! i with
  | None => (d, [])
  | Some w =>
      match AdaptiveWidget.addressed w action with
      | None => (close i d, [HostError i])
      | Some false => (d, [])
      | Some true =>
          match adapt w action with
          | Returns => (d, [Adapt i action])
          | Throws => (close i d, [Adapt i action; HostError i])
          end
      end
  end.

(** The loop of [Subject.next] over the copy of the observers. *)
Fixpoint broadcast (action : AdaptationAction) (obs : list nat) (d : Dispatcher)
    : Dispatcher * list Event :=
  match obs with
  | [] => (d, [])
  | i :: obs' =>
      let '(d1, e1) := notify action i d in
      let '(d2, e2) := broadcast action obs' d1 in
      (d2, e1 ++ e2)
  end.

(** [adaptationActions$.next(action)] *)
Definition next (action : AdaptationAction) (d : Dispatcher)
    : Dispatcher * list Event :=
  broadcast action (actionObservers d) d.

End ActionStream.

(* ===================================================================== *)
(** ** rule-evaluator.base.ts and adaptation-controller.ts                *)
(* ===================================================================== *)

(** A [RuleEvaluator]: [evaluate(rules, contextParams, adaptation)] is given
    by the actions it passes to the [adaptation] callback during the call, in
    order.  The evaluator is a function of its two arguments and returns
    normally. *)
Definition RuleEvaluator : Type :=
  list AdaptationRule -> list ContextParam -> list AdaptationAction.

(** The controller with everything it is connected to.  [context] and [rules]
    are the current values of the subjects [context$] and [rules$]; the arrays
    they hold are the fresh ones [[].concat] built, so they are kept by value. *)
Record State : Type := mkState {
  contextSide : Aggregator ContextParam;
  ruleSide : Aggregator AdaptationRule;
  context : list ContextParam;
  rules : list AdaptationRule;
  ruleEvaluator : option RuleEvaluator;
  adaptationActions : Dispatcher;
  trace : list Event
}.

Definition set_contextSide (w : Aggregator ContextParam) (s : State) : State :=
  mkState w (ruleSide s) (context s) (rules s) (ruleEvaluator s)
          (adaptationActions s) (trace s).

Definition set_ruleSide (w : Aggregator AdaptationRule) (s : State) : State :=
  mkState (contextSide s) w (context s) (rules s) (ruleEvaluator s)
          (adaptationActions s) (trace s).

Definition set_context (c : list ContextParam) (s : State) : State :=
  mkState (contextSide s) (ruleSide s) c (rules s) (ruleEvaluator s)
          (adaptationActions s) (trace s).

Definition set_rules (r : list AdaptationRule) (s : State) : State :=
  mkState (contextSide s) (ruleSide s) (context s) r (ruleEvaluator s)
          (adaptationActions s) (trace s).

Definition set_ruleEvaluator (e : option RuleEvaluator) (s : State) : State :=
  mkState (contextSide s) (ruleSide s) (context s) (rules s) e
          (adaptationActions s) (trace s).

Definition set_adaptationActions (d : Dispatcher) (s : State) : State :=
  mkState (contextSide s) (ruleSide s) (context s) (rules s) (ruleEvaluator s)
          d (trace s).

(** The events [evs] happen. *)
Definition log (evs : list Event) (s : State) : State :=
  mkState (contextSide s) (ruleSide s) (context s) (rules s) (ruleEvaluator s)
          (adaptationActions s) (trace s ++ evs).

(** The state of a freshly constructed controller in an application that has
    constructed nothing else yet. *)
Definition initial : State :=
  mkState emptyAggregator emptyAggregator [] [] None (mkDispatcher [] []) [].

Module AdaptationController.

(** [getContext()]: [this.context$.getValue()] *)
Definition getContext (s : State) : list ContextParam := context s.

(** [getRules()]: [this.rules$.getValue()] *)
Definition getRules (s : State) : list AdaptationRule := rules s.

(** [registerRuleEvaluator(token)]: the injector's evaluator is stored. *)
Definition registerRuleEvaluator (re : RuleEvaluator) (s : State) : State :=
  set_ruleEvaluator (Some re) s.

(** [fireAdaptation(action)]:
<<
    this.adaptationActions$.next(action);
    console.debug("Adaptation Controller: AdaptationAction triggered", action);
>> *)
Definition fireAdaptation (action : AdaptationAction) (s : State) : State :=
  let '(d, evs) := ActionStream.next action (adaptationActions s) in
  log [AdaptationTriggered action] (log evs (set_adaptationActions d s)).

(** [evaluateAdaptationRules()]:
<<
    if (this.ruleEvaluator)
      this.ruleEvaluator.evaluate(this.getRules(), this.getContext(),
                                  (action) => this.fireAdaptation(action));
    else
      console.log("AUI: Evaluation could not be started. No RuleEvaluator set.");
>> *)
Definition evaluateAdaptationRules (s : State) : State :=
  match ruleEvaluator s with
  | Some re =>
      fold_left (fun s' action => fireAdaptation action s')
                (re (getRules s) (getContext s))
                (log [Evaluate (getRules s) (getContext s)] s)
  | None => log [NoRuleEvaluator] s
  end.

(** [updateContext(contextParams)]:
<<
    console.debug("AC: Context updated", contextParams);
    this.context$.next(contextParams);
    this.evaluateAdaptationRules();
>> *)
Definition updateContext (contextParams : list ContextParam) (s : State) : State :=
  evaluateAdaptationRules
    (set_context contextParams (log [ContextUpdated contextParams] s)).

(** [updateRules(rules)]:
<<
    console.debug("AC: Rules updated", rules);
    this.rules$.next(rules);
    this.evaluateAdaptationRules();
>> *)
Definition updateRules (rs : list AdaptationRule) (s : State) : State :=
  evaluateAdaptationRules (set_rules rs (log [RulesUpdated rs] s)).

(** The subscriber callback [params => this.updateContext(params)] run on
    every merged array the context join emitted.  The callback touches
    neither the producers nor the join, so running it on the collected
    arrays in order is running it at each emission. *)
Definition contextEmissions (outs : list (list ContextParam)) (s : State) : State :=
  fold_left (fun s' params => updateContext params s') outs s.

(** The subscriber callback [rules => this.updateRules(rules)], likewise. *)
Definition ruleEmissions (outs : list (list AdaptationRule)) (s : State) : State :=
  fold_left (fun s' rs => updateRules rs s') outs s.

(** [registerContextProvider(token)], see [register]. *)
Definition registerContextProvider (token : nat) (s : State) : State :=
  match register token (contextSide s) with
  | None => log [InjectorError token] s
  | Some (w, outs) => contextEmissions outs (set_contextSide w s)
  end.

(** [registerRuleProvider(token)], see [register]. *)
Definition registerRuleProvider (token : nat) (s : State) : State :=
  match register token (ruleSide s) with
  | None => log [InjectorError token] s
  | Some (w, outs) => ruleEmissions outs (set_ruleSide w s)
  end.

End AdaptationController.

(* ===================================================================== *)
(** ** The application: who may call what                                 *)
(* ===================================================================== *)

(** The calls the application (subclasses, timers, the Angular runtime) makes,
    with their propagation through the controller. *)
Inductive Op : Type :=
| NewContextProvider
| NewRuleProvider
| AddContextParam (p : nat) (newParam : ContextParam)
| RemoveContextParam (p : nat) (k : string)
| ModifyContextParam (p : nat) (k : string) (newValue : JsValue)
| UpdateContext (p : nat)
| UpdateRules (p : nat)
| AddRule (p : nat) (rule : AdaptationRule)
| RemoveRule (p : nat) (n : string)
| RegisterRuleEvaluator (re : RuleEvaluator)
| RegisterContextProvider (token : nat)
| RegisterRuleProvider (token : nat)
| NewWidget (nm : string) (adapt : AdaptationAction -> Completion)
| SetNamespace (w : nat) (ns : string)
| NgOnInit (w : nat)
| NgOnDestroy (w : nat).

(** A context provider has called [next]: the snapshot it handed to its
    subject is recorded, then the controller's callback runs on what the join
    emitted. *)
Definition contextNext (p : nat)
    (r : Aggregator ContextParam * list (list ContextParam)) (s : State) : State :=
  AdaptationController.contextEmissions (snd r)
    (log (map (ContextSnapshot p) (emitted (fst r) p)) (set_contextSide (fst r) s)).

(** A rule provider has called [next], likewise. *)
Definition ruleNext (p : nat)
    (r : Aggregator AdaptationRule * list (list AdaptationRule)) (s : State) : State :=
  AdaptationController.ruleEmissions (snd r)
    (log (map (RuleSnapshot p) (emitted (fst r) p)) (set_ruleSide (fst r) s)).

Definition step (op : Op) (s : State) : State :=
  match op with
  | NewContextProvider => set_contextSide (fst (construct (contextSide s))) s
  | NewRuleProvider => set_ruleSide (fst (construct (ruleSide s))) s
  | AddContextParam p newParam =>
      set_contextSide (ContextProvider.addContextParam p newParam (contextSide s)) s
  | RemoveContextParam p k =>
      set_contextSide (ContextProvider.removeContextParam p k (contextSide s)) s
  | ModifyContextParam p k newValue =>
      set_contextSide (ContextProvider.modifyContextParam p k newValue (contextSide s)) s
  | UpdateContext p =>
      contextNext p (ContextProvider.updateContext p (contextSide s)) s
  | UpdateRules p =>
      ruleNext p (RuleProvider.updateRules p (ruleSide s)) s
  | AddRule p rule =>
      ruleNext p (RuleProvider.addRule p rule (ruleSide s)) s
  | RemoveRule p n =>
      ruleNext p (RuleProvider.removeRule p n (ruleSide s)) s
  | RegisterRuleEvaluator re => AdaptationController.registerRuleEvaluator re s
  | RegisterContextProvider token => AdaptationController.registerContextProvider token s
  | RegisterRuleProvider token => AdaptationController.registerRuleProvider token s
  | NewWidget nm adapt =>
      set_adaptationActions (AdaptiveWidget.construct nm adapt (adaptationActions s)) s
  | SetNamespace w ns =>
      set_adaptationActions (AdaptiveWidget.setNamespace w ns (adaptationActions s)) s
  | NgOnInit w =>
      set_adaptationActions (AdaptiveWidget.ngOnInit w (adaptationActions s)) s
  | NgOnDestroy w =>
      set_adaptationActions (AdaptiveWidget.ngOnDestroy w (adaptationActions s)) s
  end.

(** A sequence of calls, first to last. *)
Definition run (ops : list Op) (s : State) : State :=
  fold_left (fun s' op => step op s') ops s.

(* ===================================================================== *)
(** ** Reading the trace                                                  *)
(* ===================================================================== *)

(** The merged context arrays the controller published, in order. *)
Definition contextUpdates (evs : list Event) : list (list ContextParam) :=
  flat_map (fun e => match e with ContextUpdated c => [c] | _ => [] end) evs.

(** The merged rule arrays the controller published, in order. *)
Definition ruleUpdates (evs : list Event) : list (list AdaptationRule) :=
  flat_map (fun e => match e with RulesUpdated r => [r] | _ => [] end) evs.

(** The snapshots context providers emitted themselves, with the provider. *)
Definition contextSnapshots (evs : list Event) : list (nat * list ContextParam) :=
  flat_map (fun e => match e with ContextSnapshot p c => [(p, c)] | _ => [] end) evs.

(** The snapshots rule providers emitted themselves, with the provider. *)
Definition ruleSnapshots (evs : list Event) : list (nat * list AdaptationRule) :=
  flat_map (fun e => match e with RuleSnapshot p r => [(p, r)] | _ => [] end) evs.

(** The calls of the evaluator, with the arguments it was given. *)
Definition evaluations (evs : list Event)
    : list (list AdaptationRule * list ContextParam) :=
  flat_map (fun e => match e with Evaluate r c => [(r, c)] | _ => [] end) evs.

(** The number of times [evaluateAdaptationRules] ran: each run either calls
    the evaluator or logs that there is none. *)
Definition triggers (evs : list Event) : nat :=
  length (List.filter
            (fun e => match e with Evaluate _ _ | NoRuleEvaluator => true | _ => false end)
            evs).

(** Errors: reports to the host and exceptions leaving a call. *)
Definition errors (evs : list Event) : nat :=
  length (List.filter
            (fun e => match e with HostError _ | InjectorError _ => true | _ => false end)
            evs).

(* ===================================================================== *)
(** ** The shape of a join whose subscription is complete                 *)
(* ===================================================================== *)

(** The outer indices at which producer [p] occurs in the list of registered
    producers, counted from [i]. *)
Fixpoint indicesFrom (i : nat) (p : nat) (regs : list nat) : list nat :=
  match regs with
  | [] => []
  | q :: regs' => (if Nat.eqb q p then [i] else []) ++ indicesFrom (S i) p regs'
  end.

(** What holds of one side of the controller between two calls: every
    registered token has a service, every slot of the join holds the current
    value of its producer's subject, nothing is awaited, and the observers of
    a subject are the inner subscribers of the join for that producer. *)
Definition joined {A : Type} (w : Aggregator A) : Prop :=
  Forall (fun tok => tok < length (services w)) (registered w) /\
  values (join w) = map (fun tok => Some (currentOf (services w) tok)) (registered w) /\
  toRespond (join w) = 0 /\
  forall p pr, services w !! p = Some pr ->
               observers (subject pr) = indicesFrom 0 p (registered w).

(** The concatenation of the latest snapshot of every registered producer in
    registration order. *)
Definition mergedLatest {A : Type} (w : Aggregator A) : list A :=
  concat (map (latest w) (registered w)).

(** The slots of a join after deliveries of [v] at the indices [obs]. *)
Definition fill (v : ref) (obs : list nat) (slots : list (option ref))
    : list (option ref) :=
  fold_left (fun vs i => <[i := Some v]> vs) obs slots.

(* ===================================================================== *)
(** ** Reading the trace, continued, and the example application          *)
(* ===================================================================== *)

(** The events of a broadcast: calls of [adapt], reports to the host and the
    controller's debug line. *)
Definition dispatchOnly (e : Event) : bool :=
  match e with
  | Adapt _ _ | HostError _ | AdaptationTriggered _ => true
  | _ => false
  end.

(** What a call into the controller leaves alone: the two sides and the
    evaluator; the trace only grows, by the events [evs]. *)
Definition grows (s s' : State) (evs : list Event) : Prop :=
  contextSide s' = contextSide s /\ ruleSide s' = ruleSide s /\
  ruleEvaluator s' = ruleEvaluator s /\ trace s' = trace s ++ evs.

(** The events a call added to the trace. *)
Definition since (s s' : State) : list Event := drop (length (trace s)) (trace s').

(** The parameter of the [HandednessCP] provider of the documentation. *)
Definition handedness (v : string) : ContextParam :=
  mkContextParam user None "handedness"%string (JsString v).

(** An action on the [HideableButtonAW] widgets of the documentation. *)
Definition button (sc : option (list string)) (nm : string) : AdaptationAction :=
  AdaptationAction.mk "HideableButtonAW"%string sc nm None.

(** The two rules of the documentation. *)
Definition USER_IS_RIGHT_HANDED : AdaptationRule :=
  AdaptationRule.mk "USER_IS_RIGHT_HANDED"%string "c.user.handedness == 'right'"%string
    [button (Some ["rightBtn"%string]) "SHOW"%string;
     button (Some ["leftBtn"%string]) "HIDE"%string].

Definition USER_IS_LEFT_HANDED : AdaptationRule :=
  AdaptationRule.mk "USER_IS_LEFT_HANDED"%string "c.user.handedness == 'left'"%string
    [button (Some ["rightBtn"%string]) "HIDE"%string;
     button (Some ["leftBtn"%string]) "SHOW"%string].

(** An evaluator that understands conditions of the form
    [c.user.handedness == '...'] literally: a rule fires when the context
    holds a [handedness] parameter with the value its condition names. *)
Definition literalEvaluator : RuleEvaluator :=
  fun rs cs =>
    flat_map
      (fun r =>
         if existsb
              (fun c =>
                 match value c with
                 | JsString v =>
                     String.eqb (key c) "handedness"%string
                     && String.eqb (AdaptationRule.condition r)
                          ("c.user.handedness == '" ++ v ++ "'")%string
                 | _ => false
                 end) cs
         then AdaptationRule.actions r else [])
      rs.

(** Two context providers constructed, the first with its parameter; nothing
    registered and nothing emitted yet. *)
Definition twoContextProviders : State :=
  run [NewContextProvider; NewContextProvider;
       AddContextParam 0 (handedness "unknown"%string)] initial.

(** The provider registered and its first emission published: a join over one
    producer that has published. *)
Definition oneProducerPublished : State :=
  run [RegisterContextProvider 0; UpdateContext 0] twoContextProviders.

(** One rule provider, registered twice. *)
Definition registeredTwice : State :=
  run [NewRuleProvider; RegisterRuleProvider 0; RegisterRuleProvider 0] initial.

(** One rule provider, registered once, holding the first rule. *)
Definition oneRuleProvider : State :=
  run [NewRuleProvider; RegisterRuleProvider 0; AddRule 0 USER_IS_RIGHT_HANDED] initial.

(** Two buttons; the [adapt] of the left one throws. *)
Definition twoButtons : State :=
  run [NewWidget "HideableButtonAW"%string (fun _ => Throws);
       SetNamespace 0 "leftBtn"%string;
       NewWidget "HideableButtonAW"%string AdaptiveWidget.base_adapt;
       SetNamespace 1 "rightBtn"%string] initial.

(** The application of the documentation: a context provider, a rule provider
    with the two rules, the evaluator and two well-behaved buttons. *)
Definition application : State :=
  run [NewContextProvider; AddContextParam 0 (handedness "unknown"%string);
       NewRuleProvider;
       NewWidget "HideableButtonAW"%string AdaptiveWidget.base_adapt;
       SetNamespace 0 "rightBtn"%string;
       NewWidget "HideableButtonAW"%string AdaptiveWidget.base_adapt;
       SetNamespace 1 "leftBtn"%string;
       RegisterContextProvider 0; RegisterRuleProvider 0;
       AddRule 0 USER_IS_RIGHT_HANDED; AddRule 0 USER_IS_LEFT_HANDED;
       RegisterRuleEvaluator literalEvaluator] initial.

(* ===================================================================== *)
(** ** Reading the trace: broadcasts and adaptations                      *)
(* ===================================================================== *)


(** The actions [adapt] of widget [i] was called with, in order. *)
Definition adaptations (i : nat) (evs : list Event) : list AdaptationAction :=
  flat_map
    (fun e => match e with
              | Adapt k a => if Nat.eqb k i then [a] else []
              | _ => []
              end)
    evs.

(** The subscription of widget [i] does not survive the action: the filter
    predicate raises, or the action passes the filter and [adapt] throws. *)
Definition fails (d : Dispatcher) (action : AdaptationAction) (i : nat) : bool :=
  match widgets d !! i with
  | None => false
  | Some w =>
      match AdaptiveWidget.addressed w action with
      | None => true
      | Some false => false
      | Some true =>
          match adapt w action with
          | Throws => true
          | Returns => false
          end
      end
  end.

(** What a call adds to the trace, and what it does to the two values the
    controller stores. *)
Definition accounted (s s' : State) : Prop :=
  exists evs,
    trace s' = trace s ++ evs /\
    triggers evs = length (contextUpdates evs) + length (ruleUpdates evs) /\
    context s' = default (context s) (last (contextUpdates evs)) /\
    rules s' = default (rules s) (last (ruleUpdates evs)).

(* ===================================================================== *)
(** ** The merged arrays of one emission, and what a widget receives      *)
(* ===================================================================== *)

(** The slots of a join, one per registration, while producer [p] is
    notifying the join: its first [k] registrations have been given [new],
    its remaining ones still hold [old], and the registration of any other
    producer [q] holds [others q]. *)
Fixpoint refreshed {B : Type} (p : nat) (new old : B) (others : nat -> B)
    (k : nat) (regs : list nat) : list B :=
  match regs with
  | [] => []
  | q :: regs' =>
      if Nat.eqb q p then
        match k with
        | 0 => old :: refreshed p new old others 0 regs'
        | S k' => new :: refreshed p new old others k' regs'
        end
      else others q :: refreshed p new old others k regs'
  end.

(** The [k]-th merged array the join emits when producer [p] emits in [w]:
    the array [p] hands out for its first [k] registrations, the snapshot its
    subject held until then for its later ones, and the latest snapshot of
    every other registered producer, concatenated in registration order. *)
Definition publication {A : Type} (w : Aggregator A) (p k : nat) : list A :=
  concat (refreshed p (contents w p) (latest w p) (latest w) k (registered w)).

(** A provider registered twice whose parameter has been modified since its
    last emission: its subject still holds the array of that emission. *)
Definition modifiedSinceEmission : State :=
  run [RegisterContextProvider 0; RegisterContextProvider 0; UpdateContext 0;
       ModifyContextParam 0 "handedness"%string (JsString "left"%string)]
      twoContextProviders.



(* ===================================================================== *)
(** ** Facts about the join                                               *)
(* ===================================================================== *)

Section JoinFacts.
Context {A : Type}.
Implicit Types (h : Heap A) (j : CombineLatestSubscriber) (w : Aggregator A).

Lemma indicesFrom_app i p l1 l2 :
  indicesFrom i p (l1 ++ l2)
  = indicesFrom i p l1 ++ indicesFrom (i + length l1) p l2.
Proof.
  revert i. induction l1 as [|q l1 IH]; intros i; simpl.
  - by rewrite Nat.add_0_r.
  - rewrite IH, <- app_assoc. do 3 f_equal. lia.
Qed.

Lemma indicesFrom_length i p l :
  length (indicesFrom i p l) = count_occ Nat.eq_dec l p.
Proof.
  revert i. induction l as [|q l IH]; intros i; simpl; [done|].
  rewrite length_app, IH.
  destruct (Nat.eqb_spec q p), (Nat.eq_dec q p); simpl; congruence.
Qed.

Lemma indicesFrom_once i p l :
  count_occ Nat.eq_dec l p = 1 -> exists k, indicesFrom i p l = [k].
Proof.
  intros H. rewrite <- (indicesFrom_length i) in H.
  destruct (indicesFrom i p l) as [|k [|]]; simpl in H; try discriminate.
  by exists k.
Qed.

Lemma merged_current h (ps : list Provider) regs :
  merged h (map (fun tok => Some (currentOf ps tok)) regs)
  = concat (map (fun tok => deref h (currentOf ps tok)) regs).
Proof. unfold merged. by rewrite map_map. Qed.

(** Once nothing is awaited every delivery makes the join emit. *)
Lemma notifyNext_ready h i v j :
  toRespond j = 0 ->
  notifyNext h i v j
  = (mkJoin (<[i := Some v]> (values j)) 0,
     Some (merged h (<[i := Some v]> (values j)))).
Proof. intros H. unfold notifyNext. by rewrite H. Qed.

Lemma fill_app v obs1 obs2 slots :
  fill v (obs1 ++ obs2) slots = fill v obs2 (fill v obs1 slots).
Proof. apply fold_left_app. Qed.

Lemma deliver_ready h v obs : forall j,
  toRespond j = 0 ->
  exists outs,
    deliver h v obs j = (mkJoin (fill v obs (values j)) 0, outs) /\
    length outs = length obs /\
    (obs <> [] -> last outs = Some (merged h (fill v obs (values j)))).
Proof.
  induction obs as [|i obs IH]; intros j Hj; cbn [deliver].
  - exists []. destruct j as [vs n]; simpl in *; subst. done.
  - rewrite notifyNext_ready by done.
    destruct (IH (mkJoin (<[i := Some v]> (values j)) 0) eq_refl)
      as (outs & -> & Hlen & Hlast).
    eexists; split; [reflexivity|]. simpl. split; [by rewrite Hlen|].
    intros _. destruct obs as [|i' obs].
    + destruct outs; [done | discriminate].
    + specialize (Hlast ltac:(done)). destruct outs; [discriminate|]. done.
Qed.

(** Delivering [v] at every index of producer [p] rewrites exactly the
    slots of [p]. *)
Lemma fill_indices v p (f f' : nat -> option ref) regs : forall pre,
  f' p = Some v -> (forall tok, tok <> p -> f' tok = f tok) ->
  fill v (indicesFrom (length pre) p regs) (pre ++ map f regs)
  = pre ++ map f' regs.
Proof.
  induction regs as [|q regs IH]; intros pre Hp Hne; simpl; [done|].
  rewrite fill_app.
  assert (Hstep : fill v (if Nat.eqb q p then [length pre] else [])
                    (pre ++ f q :: map f regs)
                  = (pre ++ [f' q]) ++ map f regs).
  { rewrite <- app_assoc. simpl. destruct (Nat.eqb_spec q p) as [->|Hq]; simpl.
    - rewrite Hp. replace (length pre) with (length pre + 0) by lia.
      by rewrite insert_app_r.
    - by rewrite Hne. }
  rewrite Hstep.
  replace (S (length pre)) with (length (pre ++ [f' q]))
    by (rewrite length_app; simpl; lia).
  rewrite IH by done. by rewrite <- app_assoc.
Qed.

Lemma currentOf_insert (ps : list Provider) p pr tok :
  p < length ps ->
  currentOf (<[p := pr]> ps) tok
  = if Nat.eqb tok p then current (subject pr) else currentOf ps tok.
Proof.
  intros Hlt. unfold currentOf. destruct (Nat.eqb_spec tok p) as [->|Hne].
  - by rewrite list_lookup_insert_eq.
  - by rewrite list_lookup_insert_ne.
Qed.

(** A producer's [next] on a complete join: the join stays complete, and it
    emits once for every registration of the producer, the last emission
    being the concatenation of everybody's latest snapshot. *)
Lemma next_joined w p pr :
  joined w -> services w !! p = Some pr ->
  exists w' outs,
    next p w = (w', outs) /\
    joined w' /\
    arrays w' = arrays w /\
    registered w' = registered w /\
    services w' = <[p := mkProvider (items pr) (mkSubject (items pr) (observers (subject pr)))]> (services w) /\
    length outs = count_occ Nat.eq_dec (registered w) p /\
    (count_occ Nat.eq_dec (registered w) p <> 0 -> last outs = Some (mergedLatest w')).
Proof.
  intros (Hreg & Hvals & Hresp & Hobs) Hp. unfold next. rewrite Hp.
  destruct (deliver_ready (arrays w) (items pr) (observers (subject pr)) (join w) Hresp)
    as (outs & -> & Hlen & Hlast).
  assert (Hlt : p < length (services w)) by (by eapply lookup_lt_Some).
  set (pr' := mkProvider _ _).
  assert (Hfill : fill (items pr) (observers (subject pr)) (values (join w))
                  = map (fun tok => Some (currentOf (<[p := pr']> (services w)) tok))
                        (registered w)).
  { rewrite (Hobs _ _ Hp), Hvals.
    apply (fill_indices _ _ _ _ _ []).
    - rewrite currentOf_insert by done. by rewrite Nat.eqb_refl.
    - intros tok Hne. rewrite currentOf_insert by done.
      by destruct (Nat.eqb_spec tok p). }
  eexists _, outs. split; [reflexivity|]. simpl.
  split; [|split; [done|split; [done|split; [done|split]]]].
  - repeat split; simpl.
    + by rewrite length_insert.
    + done.
    + intros q qr Hq. destruct (decide (q = p)) as [->|Hne].
      * rewrite list_lookup_insert_eq in Hq by done. injection Hq as <-. simpl.
        by apply Hobs.
      * rewrite list_lookup_insert_ne in Hq by done. by apply Hobs.
  - by rewrite Hlen, (Hobs _ _ Hp), indicesFrom_length.
  - intros Hcount. rewrite Hlast.
    + rewrite Hfill, merged_current. done.
    + rewrite (Hobs _ _ Hp). intros Hnil.
      apply Hcount. by rewrite <- (indicesFrom_length 0), Hnil.
Qed.

Lemma currentOf_unsubscribe (ps : list Provider) tok :
  currentOf (map unsubscribe ps) tok = currentOf ps tok.
Proof.
  unfold currentOf. rewrite list_lookup_fmap. by destruct (ps !! tok).
Qed.

(** Subscribing the join to its inputs, [done] being the inputs already
    subscribed to: every input replays its current value, and the join emits
    exactly once, when the last input has been subscribed to. *)
Lemma subscribeToAll_spec h : forall toks done ps j,
  Forall (fun tok => tok < length ps) toks ->
  values j = map (fun tok => Some (currentOf ps tok)) done
             ++ replicate (length toks) None ->
  toRespond j = length toks ->
  (forall p pr, ps !! p = Some pr ->
                observers (subject pr) = indicesFrom 0 p done) ->
  exists ps' j',
    subscribeToAll h (length done) toks ps j
    = (ps', j', match toks with [] => [] | _ => [merged h (values j')] end) /\
    length ps' = length ps /\
    (forall p, currentOf ps' p = currentOf ps p) /\
    (forall p, items <$> ps' !! p = items <$> ps !! p) /\
    values j' = map (fun tok => Some (currentOf ps' tok)) (done ++ toks) /\
    toRespond j' = length toks - length toks /\
    (forall p pr, ps' !! p = Some pr ->
                  observers (subject pr) = indicesFrom 0 p (done ++ toks)).
Proof.
  induction toks as [|tok toks IH]; intros done ps j Hlt Hvals Hresp Hobs.
  - exists ps, j. cbn [subscribeToAll]. cbn in Hvals, Hresp.
    rewrite !app_nil_r in *. repeat split; try done.
  - cbn [subscribeToAll].
    apply Forall_cons in Hlt as [Htok Hlt].
    destruct (lookup_lt_is_Some_2 _ _ Htok) as [pr Hpr]. rewrite Hpr.
    set (pr1 := mkProvider _ _).
    assert (Hcur1 : forall p, currentOf (<[tok := pr1]> ps) p = currentOf ps p).
    { intros p. rewrite currentOf_insert by done.
      destruct (Nat.eqb_spec p tok) as [->|]; [|done].
      unfold currentOf. by rewrite Hpr. }
    assert (Hold : values j !! length done = Some None).
    { rewrite Hvals, lookup_app_r by (by rewrite length_map).
      by rewrite length_map, Nat.sub_diag. }
    unfold notifyNext at 1. rewrite Hold, Hresp. cbn [length Nat.eqb].
    replace (S (length toks) - 1) with (length toks) by lia.
    set (vals1 := <[length done := Some (current (subject pr))]> (values j)).
    assert (Hvals1 : vals1 = map (fun t => Some (currentOf (<[tok := pr1]> ps) t))
                                 (done ++ [tok])
                             ++ replicate (length toks) None).
    { unfold vals1. rewrite Hvals. cbn [length replicate].
      replace (length done) with (length (map (fun t => Some (currentOf ps t)) done) + 0)
        at 1 by (rewrite length_map; lia).
      rewrite insert_app_r. cbn. rewrite map_app, <- app_assoc. cbn.
      f_equal; [apply map_ext; intros; by rewrite Hcur1|].
      f_equal. rewrite Hcur1. unfold currentOf. by rewrite Hpr. }
    destruct (IH (done ++ [tok]) (<[tok := pr1]> ps) (mkJoin vals1 (length toks)))
      as (ps' & j' & Hsub & Hlen & Hcur & Hitems & Hvals' & Hresp' & Hobs').
    + by rewrite length_insert.
    + done.
    + done.
    + intros p qr Hq. rewrite indicesFrom_app. cbn.
      destruct (decide (p = tok)) as [->|Hne].
      * rewrite list_lookup_insert_eq in Hq by done. injection Hq as <-.
        cbn. rewrite Nat.eqb_refl, (Hobs _ _ Hpr). by rewrite app_nil_r.
      * rewrite list_lookup_insert_ne in Hq by done.
        destruct (Nat.eqb_spec tok p); [congruence|].
        rewrite (Hobs _ _ Hq). by rewrite !app_nil_r.
    + replace (length (done ++ [tok])) with (S (length done)) in Hsub
        by (rewrite length_app; simpl; lia).
      rewrite Hsub. exists ps', j'.
      rewrite <- app_assoc in Hvals', Hobs'. cbn in Hvals', Hobs'.
      split.
      { destruct toks as [|tok' toks]; cbn.
        - cbn in Hsub. injection Hsub as <- <-. done.
        - done. }
      rewrite length_insert in Hlen.
      repeat split; try done.
      * intros p. by rewrite Hcur, Hcur1.
      * intros p. rewrite Hitems. destruct (decide (p = tok)) as [->|Hne].
        -- rewrite list_lookup_insert_eq by done. by rewrite Hpr.
        -- by rewrite list_lookup_insert_ne.
Qed.

(** Registration on any side whose registered tokens have services: the
    join is rebuilt complete, and the [subscribe] call itself makes it emit
    exactly once, the concatenation of what every producer (the new one
    included) currently holds. *)
Lemma register_joined w tok :
  Forall (fun t => t < length (services w)) (registered w) ->
  is_Some (services w !! tok) ->
  exists w',
    register tok w = Some (w', [mergedLatest w']) /\
    joined w' /\
    arrays w' = arrays w /\
    registered w' = registered w ++ [tok] /\
    length (services w') = length (services w) /\
    (forall p, currentOf (services w') p = currentOf (services w) p) /\
    (forall p, items <$> services w' !! p = items <$> services w !! p).
Proof.
  intros Hreg [pr Hpr]. unfold register. rewrite Hpr.
  destruct (subscribeToAll_spec (arrays w) (registered w ++ [tok]) []
              (map unsubscribe (services w))
              (mkJoin (replicate (length (registered w ++ [tok])) None)
                      (length (registered w ++ [tok]))))
    as (ps' & j' & Hsub & Hlen & Hcur & Hitems & Hvals & Hresp & Hobs).
  - rewrite length_map. apply Forall_app. split; [done|].
    apply Forall_singleton. by eapply lookup_lt_Some.
  - done.
  - done.
  - intros p qr Hq. rewrite list_lookup_fmap in Hq.
    destruct (services w !! p); [|done]. by injection Hq as <-.
  - cbn [length] in Hsub. rewrite Hsub.
    rewrite length_map in Hlen. rewrite Nat.sub_diag in Hresp. cbn in Hvals, Hobs.
    assert (Hne : registered w ++ [tok] <> []) by (by destruct (registered w)).
    destruct (registered w ++ [tok]) as [|t0 regs] eqn:Eregs; [done|].
    eexists. split.
    { f_equal. f_equal. f_equal. rewrite Hvals, merged_current. reflexivity. }
    rewrite <- Eregs in *. cbn.
    split; [|repeat split; try done].
    + repeat split; cbn; try done.
      rewrite Hlen. apply Forall_app. split; [done|].
      apply Forall_singleton. by eapply lookup_lt_Some.
    + intros p. by rewrite Hcur, currentOf_unsubscribe.
    + intros p. rewrite Hitems, list_lookup_fmap. by destruct (services w !! p).
Qed.

End JoinFacts.
(* ===================================================================== *)
(** ** Facts about the action stream                                      *)
(* ===================================================================== *)

Lemma contextUpdates_app evs1 evs2 :
  contextUpdates (evs1 ++ evs2) = contextUpdates evs1 ++ contextUpdates evs2.
Proof. apply flat_map_app. Qed.

Lemma ruleUpdates_app evs1 evs2 :
  ruleUpdates (evs1 ++ evs2) = ruleUpdates evs1 ++ ruleUpdates evs2.
Proof. apply flat_map_app. Qed.

Lemma contextSnapshots_app evs1 evs2 :
  contextSnapshots (evs1 ++ evs2) = contextSnapshots evs1 ++ contextSnapshots evs2.
Proof. apply flat_map_app. Qed.

Lemma ruleSnapshots_app evs1 evs2 :
  ruleSnapshots (evs1 ++ evs2) = ruleSnapshots evs1 ++ ruleSnapshots evs2.
Proof. apply flat_map_app. Qed.

Lemma evaluations_app evs1 evs2 :
  evaluations (evs1 ++ evs2) = evaluations evs1 ++ evaluations evs2.
Proof. apply flat_map_app. Qed.

Lemma triggers_app evs1 evs2 :
  triggers (evs1 ++ evs2) = triggers evs1 + triggers evs2.
Proof. unfold triggers. by rewrite List.filter_app, length_app. Qed.

Lemma errors_app evs1 evs2 :
  errors (evs1 ++ evs2) = errors evs1 + errors evs2.
Proof. unfold errors. by rewrite List.filter_app, length_app. Qed.

(** A broadcast publishes nothing, emits no snapshot and evaluates nothing. *)
Lemma dispatchOnly_silent evs :
  forallb dispatchOnly evs = true ->
  contextUpdates evs = [] /\ ruleUpdates evs = [] /\
  contextSnapshots evs = [] /\ ruleSnapshots evs = [] /\
  evaluations evs = [] /\ triggers evs = 0.
Proof.
  induction evs as [|e evs IH]; [done|].
  cbn [forallb]. intros [He Hevs]%andb_prop.
  destruct (IH Hevs) as (? & ? & ? & ? & ? & ?).
  destruct e; try discriminate; cbn; repeat split; assumption.
Qed.

Lemma notify_widgets action i d :
  widgets (fst (ActionStream.notify action i d)) = widgets d.
Proof.
  unfold ActionStream.notify.
  destruct (widgets d !! i) as [w|]; [|done].
  destruct (AdaptiveWidget.addressed w action) as [[]|]; [|done..].
  by destruct (adapt w action).
Qed.

Lemma notify_dispatchOnly action i d :
  forallb dispatchOnly (snd (ActionStream.notify action i d)) = true.
Proof.
  unfold ActionStream.notify.
  destruct (widgets d !! i) as [w|]; [|done].
  destruct (AdaptiveWidget.addressed w action) as [[]|]; [|done..].
  by destruct (adapt w action).
Qed.


Lemma broadcast_dispatchOnly action obs : forall d,
  forallb dispatchOnly (snd (ActionStream.broadcast action obs d)) = true.
Proof.
  induction obs as [|i obs IH]; intros d; cbn [ActionStream.broadcast]; [done|].
  pose proof (notify_dispatchOnly action i d) as Hn.
  destruct (ActionStream.notify action i d) as [d1 e1].
  specialize (IH d1). destruct (ActionStream.broadcast action obs d1) as [d2 e2].
  cbn in *. rewrite forallb_app. by rewrite Hn, IH.
Qed.

(** Whether [adapt] of widget [i] is called depends on widget [i] alone: it is
    called exactly when the filter predicate returns [true] for it. *)
Lemma broadcast_adapt_iff action i w obs : forall d,
  widgets d !! i = Some w ->
  In (Adapt i action) (snd (ActionStream.broadcast action obs d))
  <-> In i obs /\ AdaptiveWidget.addressed w action = Some true.
Proof.
  induction obs as [|k obs IH]; intros d Hw; cbn [ActionStream.broadcast].
  - cbn. tauto.
  - pose proof (notify_widgets action k d) as Hn.
    assert (Hk : In (Adapt i action) (snd (ActionStream.notify action k d))
                 <-> k = i /\ AdaptiveWidget.addressed w action = Some true).
    { unfold ActionStream.notify. destruct (decide (k = i)) as [->|Hne].
      - rewrite Hw. destruct (AdaptiveWidget.addressed w action) as [[]|]; cbn.
        + destruct (adapt w action); cbn; intuition congruence.
        + intuition congruence.
        + intuition congruence.
      - destruct (widgets d !! k) as [wk|]; [|cbn; tauto].
        destruct (AdaptiveWidget.addressed wk action) as [[]|]; cbn.
        + destruct (adapt wk action); cbn; intuition congruence.
        + tauto.
        + intuition congruence. }
    destruct (ActionStream.notify action k d) as [d1 e1].
    cbn in Hn. rewrite <- Hn in Hw. specialize (IH d1 Hw).
    destruct (ActionStream.broadcast action obs d1) as [d2 e2].
    cbn in *. rewrite in_app_iff, Hk, IH. tauto.
Qed.

(* ===================================================================== *)
(** ** Facts about the controller                                         *)
(* ===================================================================== *)

Lemma grows_refl s : grows s s [].
Proof. unfold grows. by rewrite app_nil_r. Qed.

Lemma grows_trans s1 s2 s3 evs1 evs2 :
  grows s1 s2 evs1 -> grows s2 s3 evs2 -> grows s1 s3 (evs1 ++ evs2).
Proof.
  unfold grows. intros (?&?&?&?) (?&?&?&?). rewrite app_assoc.
  repeat split; congruence.
Qed.

Lemma fireAdaptation_grows action s :
  exists evs,
    grows s (AdaptationController.fireAdaptation action s) evs /\
    context (AdaptationController.fireAdaptation action s) = context s /\
    rules (AdaptationController.fireAdaptation action s) = rules s /\
    forallb dispatchOnly evs = true.
Proof.
  unfold AdaptationController.fireAdaptation, ActionStream.next.
  pose proof (broadcast_dispatchOnly action (actionObservers (adaptationActions s))
                (adaptationActions s)) as Hd.
  destruct (ActionStream.broadcast _ _ _) as [d evs]. cbn in *.
  exists (evs ++ [AdaptationTriggered action]).
  unfold grows. cbn. rewrite app_assoc, forallb_app, Hd. done.
Qed.

Lemma fireAll_grows actions : forall s,
  exists evs,
    let s' := fold_left (fun s' a => AdaptationController.fireAdaptation a s') actions s in
    grows s s' evs /\ context s' = context s /\ rules s' = rules s /\
    forallb dispatchOnly evs = true.
Proof.
  induction actions as [|a actions IH]; intros s; cbn [fold_left].
  - exists []. split; [apply grows_refl|done].
  - destruct (fireAdaptation_grows a s) as (e1 & Hg1 & Hc1 & Hr1 & Hd1).
    destruct (IH (AdaptationController.fireAdaptation a s)) as (e2 & Hg2 & Hc2 & Hr2 & Hd2).
    exists (e1 ++ e2). cbn in *. split; [by eapply grows_trans|].
    rewrite forallb_app, Hd1, Hd2. repeat split; congruence.
Qed.

(** One run of [evaluateAdaptationRules]: one trigger event, then only events
    of broadcasts. *)
Lemma evaluateAdaptationRules_grows s :
  exists evs,
    let s' := AdaptationController.evaluateAdaptationRules s in
    grows s s'
      (match ruleEvaluator s with
       | Some _ => Evaluate (rules s) (context s)
       | None => NoRuleEvaluator
       end :: evs) /\
    context s' = context s /\ rules s' = rules s /\
    forallb dispatchOnly evs = true /\
    (ruleEvaluator s = None -> evs = [] /\ s' = log [NoRuleEvaluator] s).
Proof.
  unfold AdaptationController.evaluateAdaptationRules,
    AdaptationController.getRules, AdaptationController.getContext.
  destruct (ruleEvaluator s) as [re|] eqn:Hre.
  - destruct (fireAll_grows (re (rules s) (context s))
                (log [Evaluate (rules s) (context s)] s))
      as (evs & Hg & Hc & Hr & Hd).
    exists evs. cbn in *. split; [|done].
    apply (grows_trans s (log [Evaluate (rules s) (context s)] s) _
             [Evaluate (rules s) (context s)] evs); [|done].
    by unfold grows.
  - exists []. cbn. by unfold grows.
Qed.

(** The controller's [updateContext]: the debug line, the new value of
    [context$], one run of the trigger. *)
Lemma updateContext_grows params s :
  exists evs,
    let s' := AdaptationController.updateContext params s in
    grows s s'
      (ContextUpdated params
       :: match ruleEvaluator s with
          | Some _ => Evaluate (rules s) params
          | None => NoRuleEvaluator
          end :: evs) /\
    context s' = params /\ rules s' = rules s /\
    forallb dispatchOnly evs = true /\
    (ruleEvaluator s = None ->
     s' = log [ContextUpdated params; NoRuleEvaluator] (set_context params s)).
Proof.
  unfold AdaptationController.updateContext.
  set (s1 := set_context params (log [ContextUpdated params] s)).
  destruct (evaluateAdaptationRules_grows s1) as (evs & Hg & Hc & Hr & Hd & Hnone).
  exists evs. cbn in *. repeat split; try done.
  - apply Hg.
  - apply Hg.
  - apply Hg.
  - destruct Hg as (_ & _ & _ & ->). cbn. by rewrite <- app_assoc.
  - intros Hre. destruct (Hnone Hre) as [_ ->]. unfold log, set_context. cbn.
    by rewrite <- app_assoc.
Qed.

(** The controller's [updateRules], likewise. *)
Lemma updateRules_grows rs s :
  exists evs,
    let s' := AdaptationController.updateRules rs s in
    grows s s'
      (RulesUpdated rs
       :: match ruleEvaluator s with
          | Some _ => Evaluate rs (context s)
          | None => NoRuleEvaluator
          end :: evs) /\
    context s' = context s /\ rules s' = rs /\
    forallb dispatchOnly evs = true /\
    (ruleEvaluator s = None ->
     s' = log [RulesUpdated rs; NoRuleEvaluator] (set_rules rs s)).
Proof.
  unfold AdaptationController.updateRules.
  set (s1 := set_rules rs (log [RulesUpdated rs] s)).
  destruct (evaluateAdaptationRules_grows s1) as (evs & Hg & Hc & Hr & Hd & Hnone).
  exists evs. cbn in *. repeat split; try done.
  - apply Hg.
  - apply Hg.
  - apply Hg.
  - destruct Hg as (_ & _ & _ & ->). cbn. by rewrite <- app_assoc.
  - intros Hre. destruct (Hnone Hre) as [_ ->]. unfold log, set_rules. cbn.
    by rewrite <- app_assoc.
Qed.

(** The subscriber callback run on the merged arrays [outs]: every array is
    published, in order, and each publication runs the trigger once, with the
    array just published. *)
Lemma contextEmissions_grows outs : forall s,
  exists evs,
    let s' := AdaptationController.contextEmissions outs s in
    grows s s' evs /\
    contextUpdates evs = outs /\ ruleUpdates evs = [] /\
    contextSnapshots evs = [] /\ ruleSnapshots evs = [] /\
    triggers evs = length outs /\
    evaluations evs
    = match ruleEvaluator s with
      | Some _ => map (fun c => (rules s, c)) outs
      | None => []
      end /\
    context s' = default (context s) (last outs) /\ rules s' = rules s.
Proof.
  unfold AdaptationController.contextEmissions.
  induction outs as [|c outs IH]; intros s; cbn [fold_left].
  - exists []. split; [apply grows_refl|]. cbn. by destruct (ruleEvaluator s).
  - destruct (updateContext_grows c s) as (e1 & Hg1 & Hc1 & Hr1 & Hd1 & _).
    destruct (IH (AdaptationController.updateContext c s))
      as (e2 & Hg2 & Hcu & Hru & Hcs & Hrs & Htr & Hev & Hc2 & Hr2).
    destruct (dispatchOnly_silent _ Hd1) as (D1 & D2 & D3 & D4 & D5 & D6).
    cbn in *.
    refine (ex_intro _ (_ ++ _) (conj (grows_trans _ _ _ _ _ Hg1 Hg2) _)).
    assert (Hre : ruleEvaluator (AdaptationController.updateContext c s) = ruleEvaluator s)
      by apply Hg1.
    rewrite Hre, Hr1 in Hev.
    match goal with
    | |- context [?a :: ?b :: e1] => change (a :: b :: e1) with ([a; b] ++ e1)
    end.
    rewrite !contextUpdates_app, !ruleUpdates_app, !contextSnapshots_app,
      !ruleSnapshots_app, !triggers_app, !evaluations_app.
    rewrite Hcu, Hru, Hcs, Hrs, Htr, Hev, Hc2, Hr2, Hr1, Hc1, D1, D2, D3, D4, D5, D6.
    destruct (ruleEvaluator s); cbn; repeat split; try done;
      rewrite last_cons; by destruct (last outs).
Qed.

Lemma ruleEmissions_grows outs : forall s,
  exists evs,
    let s' := AdaptationController.ruleEmissions outs s in
    grows s s' evs /\
    ruleUpdates evs = outs /\ contextUpdates evs = [] /\
    contextSnapshots evs = [] /\ ruleSnapshots evs = [] /\
    triggers evs = length outs /\
    evaluations evs
    = match ruleEvaluator s with
      | Some _ => map (fun r => (r, context s)) outs
      | None => []
      end /\
    rules s' = default (rules s) (last outs) /\ context s' = context s.
Proof.
  unfold AdaptationController.ruleEmissions.
  induction outs as [|r outs IH]; intros s; cbn [fold_left].
  - exists []. split; [apply grows_refl|]. cbn. by destruct (ruleEvaluator s).
  - destruct (updateRules_grows r s) as (e1 & Hg1 & Hc1 & Hr1 & Hd1 & _).
    destruct (IH (AdaptationController.updateRules r s))
      as (e2 & Hg2 & Hru & Hcu & Hcs & Hrs & Htr & Hev & Hr2 & Hc2).
    destruct (dispatchOnly_silent _ Hd1) as (D1 & D2 & D3 & D4 & D5 & D6).
    cbn in *.
    refine (ex_intro _ (_ ++ _) (conj (grows_trans _ _ _ _ _ Hg1 Hg2) _)).
    assert (Hre : ruleEvaluator (AdaptationController.updateRules r s) = ruleEvaluator s)
      by apply Hg1.
    rewrite Hre, Hc1 in Hev.
    match goal with
    | |- context [?a :: ?b :: e1] => change (a :: b :: e1) with ([a; b] ++ e1)
    end.
    rewrite !contextUpdates_app, !ruleUpdates_app, !contextSnapshots_app,
      !ruleSnapshots_app, !triggers_app, !evaluations_app.
    rewrite Hcu, Hru, Hcs, Hrs, Htr, Hev, Hc2, Hr2, Hr1, Hc1, D1, D2, D3, D4, D5, D6.
    destruct (ruleEvaluator s); cbn; repeat split; try done;
      rewrite last_cons; by destruct (last outs).
Qed.

(* ===================================================================== *)
(** ** The join is complete between any two calls                         *)
(* ===================================================================== *)

Section JoinInvariant.
Context {A : Type}.
Implicit Types (w : Aggregator A) (h : Heap A).

Lemma indicesFrom_absent i p regs :
  Forall (fun tok => tok <> p) regs -> indicesFrom i p regs = [].
Proof.
  revert i. induction regs as [|q regs IH]; intros i H; [done|].
  apply Forall_cons in H as [Hq H]. cbn.
  destruct (Nat.eqb_spec q p); [done|]. by apply IH.
Qed.

Lemma joined_empty : joined (@emptyAggregator A).
Proof. repeat split; try done. Qed.

(** Mutating or replacing arrays does not concern the join. *)
Lemma joined_arrays w h :
  joined w -> joined (mkAggregator h (services w) (registered w) (join w)).
Proof. done. Qed.

(** Rebinding the array field of a producer does not concern the join. *)
Lemma joined_items w h p pr r :
  joined w -> services w !! p = Some pr ->
  joined (mkAggregator h (<[p := mkProvider r (subject pr)]> (services w))
                       (registered w) (join w)).
Proof.
  intros (Hreg & Hvals & Hresp & Hobs) Hp.
  assert (Hlt : p < length (services w)) by (by eapply lookup_lt_Some).
  repeat split; cbn.
  - by rewrite length_insert.
  - rewrite Hvals. apply map_ext. intros tok. rewrite currentOf_insert by done.
    destruct (Nat.eqb_spec tok p) as [->|]; [|done].
    unfold currentOf. by rewrite Hp.
  - done.
  - intros q qr Hq. destruct (decide (q = p)) as [->|Hne].
    + rewrite list_lookup_insert_eq in Hq by done. injection Hq as <-.
      exact (Hobs _ _ Hp).
    + rewrite list_lookup_insert_ne in Hq by done. by apply Hobs.
Qed.

Lemma joined_construct w : joined w -> joined (fst (construct w)).
Proof.
  intros (Hreg & Hvals & Hresp & Hobs). unfold construct. cbn.
  repeat split; cbn.
  - eapply Forall_impl; [exact Hreg|]. intros tok Htok. cbn in Htok.
    rewrite length_app. cbn. lia.
  - rewrite Hvals. apply Forall_fmap_ext_1.
    eapply Forall_impl; [exact Hreg|]. intros tok Htok. cbn.
    unfold currentOf. by rewrite lookup_app_l.
  - done.
  - intros p pr Hp. destruct (decide (p < length (services w))) as [Hlt|Hge].
    + rewrite lookup_app_l in Hp by done. by apply Hobs.
    + rewrite lookup_app_r in Hp by lia.
      destruct (p - length (services w)) eqn:E; [|by destruct n].
      injection Hp as <-. cbn. symmetry. apply indicesFrom_absent.
      eapply Forall_impl; [exact Hreg|]. cbn. lia.
Qed.

Lemma next_joined_fst w p : joined w -> joined (fst (next p w)).
Proof.
  intros Hj. destruct (services w !! p) as [pr|] eqn:Hp.
  - destruct (next_joined w p pr Hj Hp) as (w' & outs & -> & Hj' & _). done.
  - unfold next. by rewrite Hp.
Qed.

End JoinInvariant.

Lemma joined_addContextParam p newParam w :
  joined w -> joined (ContextProvider.addContextParam p newParam w).
Proof.
  intros Hj. unfold ContextProvider.addContextParam.
  destruct (services w !! p); [|done]. cbn. by apply joined_arrays.
Qed.

Lemma joined_removeContextParam p k w :
  joined w -> joined (ContextProvider.removeContextParam p k w).
Proof.
  intros Hj. unfold ContextProvider.removeContextParam.
  destruct (services w !! p) eqn:Hp; [|done]. cbn. by apply joined_items.
Qed.

Lemma joined_modifyContextParam p k v w :
  joined w -> joined (ContextProvider.modifyContextParam p k v w).
Proof.
  intros Hj. unfold ContextProvider.modifyContextParam.
  destruct (ContextProvider.getContextParam p k w); [|done].
  by apply joined_addContextParam, joined_removeContextParam.
Qed.

Lemma joined_addRule p rule w :
  joined w -> joined (fst (RuleProvider.addRule p rule w)).
Proof.
  intros Hj. unfold RuleProvider.addRule.
  destruct (services w !! p); [|done].
  by apply next_joined_fst, joined_arrays.
Qed.

Lemma joined_removeRule p n w :
  joined w -> joined (fst (RuleProvider.removeRule p n w)).
Proof.
  intros Hj. unfold RuleProvider.removeRule.
  destruct (services w !! p) eqn:Hp; [|done]. cbn.
  by apply next_joined_fst, joined_items.
Qed.

Lemma contextEmissions_sides outs s :
  contextSide (AdaptationController.contextEmissions outs s) = contextSide s /\
  ruleSide (AdaptationController.contextEmissions outs s) = ruleSide s.
Proof.
  destruct (contextEmissions_grows outs s) as (evs & (? & ? & _) & _). done.
Qed.

Lemma ruleEmissions_sides outs s :
  contextSide (AdaptationController.ruleEmissions outs s) = contextSide s /\
  ruleSide (AdaptationController.ruleEmissions outs s) = ruleSide s.
Proof.
  destruct (ruleEmissions_grows outs s) as (evs & (? & ? & _) & _). done.
Qed.

(** Every call of the application keeps both joins complete. *)
Lemma step_joined op s :
  joined (contextSide s) /\ joined (ruleSide s) ->
  joined (contextSide (step op s)) /\ joined (ruleSide (step op s)).
Proof.
  intros [Hc Hr].
  destruct op; cbn [step];
    unfold contextNext, ruleNext,
      AdaptationController.registerRuleEvaluator,
      AdaptationController.registerContextProvider,
      AdaptationController.registerRuleProvider,
      ContextProvider.updateContext, RuleProvider.updateRules;
    rewrite ?(proj1 (contextEmissions_sides _ _)), ?(proj2 (contextEmissions_sides _ _)),
      ?(proj1 (ruleEmissions_sides _ _)), ?(proj2 (ruleEmissions_sides _ _));
    cbn; try (split; [done|done]).
  - split; [by apply joined_construct|done].
  - split; [done|by apply joined_construct].
  - split; [by apply joined_addContextParam|done].
  - split; [by apply joined_removeContextParam|done].
  - split; [by apply joined_modifyContextParam|done].
  - split; [by apply next_joined_fst|done].
  - split; [done|by apply next_joined_fst].
  - split; [done|by apply joined_addRule].
  - split; [done|by apply joined_removeRule].
  - destruct (services (contextSide s) !! token) eqn:Htok.
    + destruct (register_joined (contextSide s) token (proj1 Hc) ltac:(by eexists))
        as (w' & -> & Hj & _).
      rewrite (proj1 (contextEmissions_sides _ _)), (proj2 (contextEmissions_sides _ _)).
      done.
    + unfold register. rewrite Htok. done.
  - destruct (services (ruleSide s) !! token) eqn:Htok.
    + destruct (register_joined (ruleSide s) token (proj1 Hr) ltac:(by eexists))
        as (w' & -> & Hj & _).
      rewrite (proj1 (ruleEmissions_sides _ _)), (proj2 (ruleEmissions_sides _ _)).
      done.
    + unfold register. rewrite Htok. done.
Qed.

Lemma run_joined ops : forall s,
  joined (contextSide s) /\ joined (ruleSide s) ->
  joined (contextSide (run ops s)) /\ joined (ruleSide (run ops s)).
Proof.
  unfold run. induction ops as [|op ops IH]; intros s H; cbn [fold_left]; [done|].
  by apply IH, step_joined.
Qed.

(** In every state the application can reach from a fresh controller both
    joins are complete. *)
Lemma reachable_joined ops :
  joined (contextSide (run ops initial)) /\ joined (ruleSide (run ops initial)).
Proof. apply run_joined. split; apply joined_empty. Qed.

(* ===================================================================== *)
(** ** The delivery filter and the broadcast                              *)
(* ===================================================================== *)

(** The events of a broadcast are the reactions of the observers, one after
    the other; the reaction of an observer depends on its widget only. *)
Lemma notify_events_widgets action i d d' :
  widgets d' = widgets d ->
  snd (ActionStream.notify action i d') = snd (ActionStream.notify action i d).
Proof.
  intros H. unfold ActionStream.notify. rewrite H.
  destruct (widgets d !! i) as [w|]; [|done].
  destruct (AdaptiveWidget.addressed w action) as [[]|]; [|done..].
  by destruct (adapt w action).
Qed.

Lemma broadcast_events action obs : forall d,
  snd (ActionStream.broadcast action obs d)
  = flat_map (fun i => snd (ActionStream.notify action i d)) obs.
Proof.
  induction obs as [|i obs IH]; intros d; cbn [ActionStream.broadcast flat_map]; [done|].
  pose proof (notify_widgets action i d) as Hn.
  destruct (ActionStream.notify action i d) as [d1 e1] eqn:E.
  specialize (IH d1). destruct (ActionStream.broadcast action obs d1) as [d2 e2].
  cbn in *. rewrite IH. f_equal.
  apply flat_map_ext. intros k. by apply notify_events_widgets.
Qed.

(** With the [scope] property present the predicate is the filter of the
    documentation: same target, and an empty scope or a scope that lists the
    namespace of the widget. *)
Lemma addressed_with_scope w action sc :
  AdaptationAction.scope action = Some sc ->
  AdaptiveWidget.addressed w action = Some true
  <-> AdaptationAction.target action = name w /\ (sc = [] \/ In (namespace w) sc).
Proof.
  intros Hsc. unfold AdaptiveWidget.addressed. rewrite Hsc.
  destruct (String.eqb_spec (AdaptationAction.target action) (name w)) as [Ht|Ht].
  - split.
    + intros [=H]. split; [done|].
      apply orb_prop in H as [H|H].
      * left. destruct sc; [done|discriminate].
      * right. apply existsb_exists in H as (ns & Hin & Heq).
        apply String.eqb_eq in Heq. by subst.
    + intros [_ [->|Hin]]; [done|]. f_equal. apply orb_true_iff. right.
      apply existsb_exists. exists (namespace w). split; [done|].
      apply String.eqb_refl.
  - split; [discriminate|]. by intros [? _].
Qed.

(** When the [scope] property is present, [adapt] of a subscribed widget is
    called if and only if the action passes the filter. *)
Lemma delivery_with_scope d i w action sc :
  widgets d !! i = Some w -> In i (actionObservers d) ->
  AdaptationAction.scope action = Some sc ->
  In (Adapt i action) (snd (ActionStream.next action d))
  <-> AdaptationAction.target action = name w /\ (sc = [] \/ In (namespace w) sc).
Proof.
  intros Hw Hi Hsc. unfold ActionStream.next.
  rewrite (broadcast_adapt_iff action i w _ d Hw), <- (addressed_with_scope w action sc Hsc).
  tauto.
Qed.

(** C1.  An action without the [scope] property whose target is the name of a
    subscribed widget is not delivered to it: the filter predicate raises a
    [TypeError] on [action.scope.length], [adapt] is not called, and the
    error is reported to the host.  The same action with [scope: []] is
    delivered. *)
Theorem absent_scope_is_not_delivered d i w action :
  widgets d !! i = Some w -> In i (actionObservers d) ->
  AdaptationAction.target action = name w ->
  AdaptationAction.scope action = None ->
  AdaptiveWidget.addressed w action = None /\
  ~ In (Adapt i action) (snd (ActionStream.next action d)) /\
  In (HostError i) (snd (ActionStream.next action d)) /\
  (let action0 := AdaptationAction.mk (AdaptationAction.target action) (Some [])
                    (AdaptationAction.name action) (AdaptationAction.params action) in
   In (Adapt i action0) (snd (ActionStream.next action0 d))).
Proof.
  intros Hw Hi Ht Hsc.
  assert (Ha : AdaptiveWidget.addressed w action = None).
  { unfold AdaptiveWidget.addressed. by rewrite Ht, String.eqb_refl, Hsc. }
  split; [done|]. split; [|split].
  - unfold ActionStream.next. rewrite (broadcast_adapt_iff action i w _ d Hw), Ha.
    by intros [_ ?].
  - unfold ActionStream.next. rewrite broadcast_events. apply in_flat_map.
    exists i. split; [done|]. unfold ActionStream.notify. rewrite Hw, Ha. by left.
  - cbn. apply (delivery_with_scope d i w _ [] Hw Hi); cbn; [done|].
    by split; [|left].
Qed.

(** C4.  [ngOnDestroy] releases nothing: after the teardown of a widget an
    action that passes its filter still calls its [adapt]. *)
Theorem destroyed_widget_still_adapts s i w action :
  widgets (adaptationActions s) !! i = Some w ->
  In i (actionObservers (adaptationActions s)) ->
  AdaptiveWidget.addressed w action = Some true ->
  let s' := AdaptationController.fireAdaptation action (step (NgOnDestroy i) s) in
  actionObservers (adaptationActions (step (NgOnDestroy i) s))
  = actionObservers (adaptationActions s) /\
  exists evs, trace s' = trace s ++ evs /\ In (Adapt i action) evs.
Proof.
  intros Hw Hi Ha. cbn. split; [done|].
  unfold AdaptationController.fireAdaptation, AdaptiveWidget.ngOnDestroy.
  cbn. unfold ActionStream.next.
  pose proof (proj2 (broadcast_adapt_iff action i w _ _ Hw) (conj Hi Ha)) as Hin.
  destruct (ActionStream.broadcast _ _ _) as [d evs]. cbn in *.
  exists (evs ++ [AdaptationTriggered action]). rewrite app_assoc. split; [done|].
  apply in_app_iff. by left.
Qed.

(** C6.  A widget whose [adapt] throws on the action does not keep the action
    from any other subscribed widget, wherever the two stand in the observer
    list. *)
Theorem throwing_handler_does_not_stop_delivery d action h hw i w :
  widgets d !! h = Some hw -> In h (actionObservers d) ->
  AdaptiveWidget.addressed hw action = Some true ->
  adapt hw action = Throws ->
  widgets d !! i = Some w -> In i (actionObservers d) -> i <> h ->
  AdaptiveWidget.addressed w action = Some true ->
  In (Adapt i action) (snd (ActionStream.next action d)) /\
  In (Adapt h action) (snd (ActionStream.next action d)) /\
  In (HostError h) (snd (ActionStream.next action d)).
Proof.
  intros Hh Hhin Hha Hthrow Hw Hi Hne Ha. unfold ActionStream.next.
  split; [|split].
  - by apply (broadcast_adapt_iff action i w _ d Hw).
  - by apply (broadcast_adapt_iff action h hw _ d Hh).
  - rewrite broadcast_events. apply in_flat_map. exists h. split; [done|].
    unfold ActionStream.notify. rewrite Hh, Hha, Hthrow. cbn. tauto.
Qed.

(** C5.  Each publication of a merged context array and each publication of a
    merged rule array runs the trigger exactly once, after the new value has
    been stored.  Without an evaluator the run only writes the diagnostic. *)
Theorem publication_runs_the_trigger_once (s : State) :
  (forall params,
     let s' := AdaptationController.updateContext params s in
     exists evs,
       trace s' = trace s ++ ContextUpdated params :: evs /\
       triggers evs = 1 /\
       AdaptationController.getContext s' = params /\
       match ruleEvaluator s with
       | Some _ => evaluations evs = [(rules s, params)]
       | None =>
           evs = [NoRuleEvaluator] /\ errors evs = 0 /\
           s' = log [ContextUpdated params; NoRuleEvaluator] (set_context params s)
       end) /\
  (forall rs,
     let s' := AdaptationController.updateRules rs s in
     exists evs,
       trace s' = trace s ++ RulesUpdated rs :: evs /\
       triggers evs = 1 /\
       AdaptationController.getRules s' = rs /\
       match ruleEvaluator s with
       | Some _ => evaluations evs = [(rs, context s)]
       | None =>
           evs = [NoRuleEvaluator] /\ errors evs = 0 /\
           s' = log [RulesUpdated rs; NoRuleEvaluator] (set_rules rs s)
       end).
Proof.
  split.
  - intros params.
    destruct (updateContext_grows params s) as (evs & Hg & Hc & Hr & Hd & Hnone).
    destruct (dispatchOnly_silent _ Hd) as (_ & _ & _ & _ & D5 & D6).
    cbn in *. destruct Hg as (_ & _ & _ & Htr).
    eexists. split; [exact Htr|].
    change (?e :: evs) with ([e] ++ evs). rewrite triggers_app, evaluations_app, D5, D6.
    destruct (ruleEvaluator s) eqn:Hre; cbn; repeat split; try done.
    + specialize (Hnone eq_refl). rewrite Hnone in Htr. cbn in Htr.
      apply app_inv_head in Htr. injection Htr as <-. done.
    + specialize (Hnone eq_refl). rewrite Hnone in Htr. cbn in Htr.
      apply app_inv_head in Htr. injection Htr as <-. done.
    + by apply Hnone.
  - intros rs.
    destruct (updateRules_grows rs s) as (evs & Hg & Hc & Hr & Hd & Hnone).
    destruct (dispatchOnly_silent _ Hd) as (_ & _ & _ & _ & D5 & D6).
    cbn in *. destruct Hg as (_ & _ & _ & Htr).
    eexists. split; [exact Htr|].
    change (?e :: evs) with ([e] ++ evs). rewrite triggers_app, evaluations_app, D5, D6.
    destruct (ruleEvaluator s) eqn:Hre; cbn; repeat split; try done.
    + specialize (Hnone eq_refl). rewrite Hnone in Htr. cbn in Htr.
      apply app_inv_head in Htr. injection Htr as <-. done.
    + specialize (Hnone eq_refl). rewrite Hnone in Htr. cbn in Htr.
      apply app_inv_head in Htr. injection Htr as <-. done.
    + by apply Hnone.
Qed.

(* ===================================================================== *)
(** ** The array store                                                    *)
(* ===================================================================== *)

Section StoreFacts.
Context {A : Type}.
Implicit Types (h : Heap A) (l : list A).

Lemma deref_lookup h r l : h !! r = Some l -> deref h r = l.
Proof. unfold deref. by intros ->. Qed.

Lemma lookup_push h r x l : h !! r = Some l -> push r x h !! r = Some (l ++ [x]).
Proof. intros H. unfold push. by rewrite list_lookup_alter_eq, H. Qed.

Lemma lookup_push_ne h r r' x : r <> r' -> push r x h !! r' = h !! r'.
Proof. intros H. unfold push. by rewrite list_lookup_alter_ne. Qed.

Lemma lookup_alloc_new h l : fst (alloc l h) !! snd (alloc l h) = Some l.
Proof. cbn. by rewrite lookup_app_r, Nat.sub_diag. Qed.

Lemma lookup_alloc_old h l r l0 : h !! r = Some l0 -> fst (alloc l h) !! r = Some l0.
Proof. intros H. cbn. by apply lookup_app_l_Some. Qed.

Lemma filter_all (f : A -> bool) l :
  (forall x, In x l -> f x = true) -> List.filter f l = l.
Proof.
  induction l as [|x l IH]; intros H; [done|]. cbn.
  rewrite (H x) by (by left). f_equal. apply IH. intros y Hy. apply H. by right.
Qed.

Lemma filter_none (f : A -> bool) l :
  List.filter f (List.filter (fun x => negb (f x)) l) = [].
Proof.
  induction l as [|x l IH]; [done|]. cbn.
  destruct (f x) eqn:E; cbn; [done|]. by rewrite E.
Qed.

Lemma find_first (f : A -> bool) l1 x l2 :
  (forall y, In y l1 -> f y = false) -> f x = true ->
  List.find f (l1 ++ x :: l2) = Some x.
Proof.
  induction l1 as [|y l1 IH]; intros H Hx; cbn.
  - by rewrite Hx.
  - rewrite (H y) by (by left). apply IH; [|done]. intros z Hz. apply H. by right.
Qed.

Lemma find_absent (f : A -> bool) l :
  (forall y, In y l -> f y = false) -> List.find f l = None.
Proof.
  induction l as [|y l IH]; intros H; [done|]. cbn.
  rewrite (H y) by (by left). apply IH. intros z Hz. apply H. by right.
Qed.
End StoreFacts.

(* ===================================================================== *)
(** ** Context providers                                                  *)
(* ===================================================================== *)

(** C9.  [addContextParam] appends the parameter to the provider's array
    whatever the array holds: the guard is an array and therefore true.  With
    a parameter of the same key already there the array, and the snapshot the
    provider emits next, hold the key twice. *)
Theorem addContextParam_always_appends s p cp l newParam :
  services (contextSide s) !! p = Some cp ->
  arrays (contextSide s) !! items cp = Some l ->
  let s' := step (AddContextParam p newParam) s in
  contents (contextSide s') p = l ++ [newParam] /\
  services (contextSide s') = services (contextSide s) /\
  trace s' = trace s /\
  emitted (fst (ContextProvider.updateContext p (contextSide s'))) p
  = [l ++ [newParam]] /\
  (forall param, In param l -> key param = key newParam ->
                 ~ NoDup (map key (contents (contextSide s') p))).
Proof.
  intros Hp Hl. cbn. unfold ContextProvider.addContextParam. rewrite Hp. cbn.
  assert (Hc : contents
                 (mkAggregator (push (items cp) newParam (arrays (contextSide s)))
                    (services (contextSide s)) (registered (contextSide s))
                    (join (contextSide s))) p = l ++ [newParam]).
  { unfold contents. cbn. rewrite Hp. cbn.
    apply deref_lookup. by apply lookup_push. }
  split; [done|]. split; [done|]. split; [done|]. split.
  - unfold ContextProvider.updateContext, next. cbn. rewrite Hp.
    destruct (deliver _ _ _ _) as [j outs]. cbn. unfold emitted. cbn.
    rewrite list_lookup_insert_eq by (by eapply lookup_lt_Some). cbn.
    f_equal. apply deref_lookup. by apply lookup_push.
  - intros param Hin Hkey. rewrite Hc, map_app. cbn. intros Hnd.
    apply NoDup_app in Hnd as (_ & Hdisj & _).
    apply (Hdisj (key newParam)).
    + rewrite <- Hkey. apply list_elem_of_In, in_map, Hin.
    + by apply list_elem_of_singleton.
Qed.

(** C10.  [modifyContextParam] on a key the array holds: the provider's array
    becomes the old one without the parameters of that key, followed by one
    parameter that has the context of use, type and key of the first match
    and the new value.  Nothing is emitted: the trace, the subjects, the join
    and every array that existed keep their value.  On a key the array does
    not hold nothing changes at all. *)
Theorem modifyContextParam_moves_to_end s p cp l k newValue :
  services (contextSide s) !! p = Some cp ->
  arrays (contextSide s) !! items cp = Some l ->
  let s' := step (ModifyContextParam p k newValue) s in
  (forall l1 oldParam l2,
     l = l1 ++ oldParam :: l2 -> key oldParam = k ->
     (forall x, In x l1 -> key x <> k) ->
     let newParam :=
       mkContextParam (contextOfUse oldParam) (type oldParam) (key oldParam) newValue in
     contents (contextSide s') p
     = List.filter (fun param => negb (String.eqb (key param) k)) l ++ [newParam] /\
     List.filter (fun param => String.eqb (key param) k) (contents (contextSide s') p)
     = [newParam] /\
     trace s' = trace s /\ context s' = context s /\
     join (contextSide s') = join (contextSide s) /\
     registered (contextSide s') = registered (contextSide s) /\
     (forall q, subject <$> services (contextSide s') !! q
                = subject <$> services (contextSide s) !! q) /\
     (forall r l0, arrays (contextSide s) !! r = Some l0 ->
                   arrays (contextSide s') !! r = Some l0)) /\
  ((forall x, In x l -> key x <> k) -> s' = s).
Proof.
  intros Hp Hl. cbn. unfold ContextProvider.modifyContextParam,
    ContextProvider.getContextParam. rewrite Hp, (deref_lookup _ _ _ Hl).
  assert (Hlt : p < length (services (contextSide s))) by (by eapply lookup_lt_Some).
  assert (Hr : items cp < length (arrays (contextSide s))) by (by eapply lookup_lt_Some).
  split.
  - intros l1 oldParam l2 -> Hk Hl1.
    rewrite (find_first _ l1 oldParam l2).
    2:{ intros y Hy. apply String.eqb_neq. by apply Hl1. }
    2:{ by apply String.eqb_eq. }
    unfold ContextProvider.removeContextParam, ContextProvider.addContextParam.
    rewrite Hp, (deref_lookup _ _ _ Hl). cbn.
    rewrite list_lookup_insert_eq by done. cbn.
    set (kept := List.filter _ (l1 ++ oldParam :: l2)).
    set (newParam := mkContextParam _ _ _ _).
    match goal with
    | |- contents ?w p = _ /\ _ => assert (Hc : contents w p = kept ++ [newParam])
    end.
    { unfold contents. cbn. rewrite list_lookup_insert_eq by done. cbn.
      apply deref_lookup. rewrite list_lookup_alter_eq.
      by rewrite lookup_app_r, Nat.sub_diag. }
    rewrite Hc. repeat split; try done.
    + rewrite List.filter_app. unfold kept. rewrite filter_none. cbn.
      by rewrite Hk, String.eqb_refl.
    + intros q. destruct (decide (q = p)) as [->|Hne].
      * rewrite list_lookup_insert_eq by done. by rewrite Hp.
      * by rewrite list_lookup_insert_ne.
    + intros r l0 Hr0. rewrite list_lookup_alter_ne.
      * by apply lookup_app_l_Some.
      * apply lookup_lt_Some in Hr0. lia.
  - intros Hno. rewrite find_absent; [by destruct s|].
    intros x Hx. apply String.eqb_neq. by apply Hno.
Qed.

(* ===================================================================== *)
(** ** Producers emitting                                                 *)
(* ===================================================================== *)

Section NextFacts.
Context {A : Type}.
Implicit Types (w : Aggregator A).

(** What a producer's [next] hands out is the array of its field: after the
    call the subject holds that very array. *)
Lemma next_emitted w p pr :
  services w !! p = Some pr ->
  arrays (fst (next p w)) = arrays w /\
  emitted (fst (next p w)) p = [deref (arrays w) (items pr)] /\
  contents (fst (next p w)) p = deref (arrays w) (items pr) /\
  latest (fst (next p w)) p = deref (arrays w) (items pr).
Proof.
  intros Hp. unfold next. rewrite Hp.
  destruct (deliver _ _ _ _) as [j outs]. cbn.
  assert (Hlt : p < length (services w)) by (by eapply lookup_lt_Some).
  unfold emitted, contents, latest, currentOf. cbn.
  by rewrite list_lookup_insert_eq by done.
Qed.

Lemma latest_ext w w' :
  arrays w' = arrays w ->
  (forall p, currentOf (services w') p = currentOf (services w) p) ->
  forall p, latest w' p = latest w p.
Proof. intros Ha Hc p. unfold latest. by rewrite Ha, Hc. Qed.
End NextFacts.

(** A rule provider's emission seen from the controller: the snapshot event,
    then the publication of everything the join emitted. *)
Lemma ruleNext_trace p r s :
  exists evs,
    let s' := ruleNext p r s in
    trace s' = trace s ++ map (RuleSnapshot p) (emitted (fst r) p) ++ evs /\
    ruleSnapshots evs = [] /\ ruleUpdates evs = snd r /\
    triggers evs = length (snd r) /\
    evaluations evs
    = match ruleEvaluator s with
      | Some _ => map (fun rs => (rs, context s)) (snd r)
      | None => []
      end /\
    ruleSide s' = fst r /\ rules s' = default (rules s) (last (snd r)).
Proof.
  unfold ruleNext.
  destruct (ruleEmissions_grows (snd r)
              (log (map (RuleSnapshot p) (emitted (fst r) p)) (set_ruleSide (fst r) s)))
    as (evs & (Hc & Hr & _ & Ht) & Hru & _ & _ & Hrs & Htr & Hev & Hrules & _).
  exists evs. cbn in *. rewrite Ht, <- app_assoc. done.
Qed.

(** A context provider's emission seen from the controller. *)
Lemma contextNext_trace p r s :
  exists evs,
    let s' := contextNext p r s in
    trace s' = trace s ++ map (ContextSnapshot p) (emitted (fst r) p) ++ evs /\
    contextSnapshots evs = [] /\ contextUpdates evs = snd r /\
    triggers evs = length (snd r) /\
    contextSide s' = fst r /\ context s' = default (context s) (last (snd r)).
Proof.
  unfold contextNext.
  destruct (contextEmissions_grows (snd r)
              (log (map (ContextSnapshot p) (emitted (fst r) p)) (set_contextSide (fst r) s)))
    as (evs & (Hc & Hr & _ & Ht) & Hcu & _ & Hcs & _ & Htr & Hev & Hctx & _).
  exists evs. cbn in *. rewrite Ht, <- app_assoc. done.
Qed.

Lemma last_singleton {A : Type} (outs : list A) (x : A) :
  length outs = 1 -> last outs = Some x -> outs = [x].
Proof. destruct outs as [|y [|]]; try done. cbn. by intros _ [= ->]. Qed.

(* ===================================================================== *)
(** ** Rule providers                                                     *)
(* ===================================================================== *)

(** C8.  [removeRule] with a name no rule of the provider carries: the rule
    set is the same sequence as before, and the snapshot the call emits is
    that sequence, which is what the provider would have emitted just before
    the call and what it emits from then on.  When the subject held an
    up-to-date snapshot before the call, it holds an equal one after it. *)
Theorem removeRule_of_unknown_name s p rp l n :
  services (ruleSide s) !! p = Some rp ->
  arrays (ruleSide s) !! items rp = Some l ->
  (forall rule, In rule l -> AdaptationRule.name rule <> n) ->
  let s' := step (RemoveRule p n) s in
  contents (ruleSide s') p = l /\
  emitted (fst (RuleProvider.updateRules p (ruleSide s))) p = [l] /\
  (exists evs, trace s' = trace s ++ evs /\ ruleSnapshots evs = [(p, l)]) /\
  emitted (fst (RuleProvider.updateRules p (ruleSide s'))) p = [l] /\
  latest (ruleSide s') p = l /\
  (latest (ruleSide s) p = l -> latest (ruleSide s') p = latest (ruleSide s) p).
Proof.
  intros Hp Hl Hno. cbn.
  assert (Hlt : p < length (services (ruleSide s))) by (by eapply lookup_lt_Some).
  assert (Hkeep : List.filter
                    (fun rule => negb (String.eqb (AdaptationRule.name rule) n)) l = l).
  { apply filter_all. intros rule Hin. apply negb_true_iff, String.eqb_neq. by apply Hno. }
  set (w1 := mkAggregator (arrays (ruleSide s) ++ [l])
               (<[p := mkProvider (length (arrays (ruleSide s))) (subject rp)]>
                  (services (ruleSide s)))
               (registered (ruleSide s)) (join (ruleSide s))).
  assert (Hrem : RuleProvider.removeRule p n (ruleSide s) = next p w1).
  { unfold RuleProvider.removeRule. rewrite Hp. by rewrite (deref_lookup _ _ _ Hl), Hkeep. }
  destruct (ruleNext_trace p (RuleProvider.removeRule p n (ruleSide s)) s)
    as (evs & Htr & Hrs & _ & _ & _ & Hside & _).
  cbn in Htr, Hside. rewrite Hside. rewrite Hrem in *.
  assert (Hp1 : services w1 !! p = Some (mkProvider (length (arrays (ruleSide s))) (subject rp))).
  { cbn. by rewrite list_lookup_insert_eq. }
  destruct (next_emitted w1 p _ Hp1) as (Harr & Hem & Hcont & Hlat).
  cbn in Harr, Hem, Hcont, Hlat.
  assert (Hnew : deref (arrays (ruleSide s) ++ [l]) (length (arrays (ruleSide s))) = l).
  { apply deref_lookup. by rewrite lookup_app_r, Nat.sub_diag. }
  rewrite Hnew in *.
  split; [done|]. split.
  { unfold RuleProvider.updateRules.
    destruct (next_emitted (ruleSide s) p rp Hp) as (_ & -> & _).
    by rewrite (deref_lookup _ _ _ Hl). }
  split.
  { eexists. split; [exact Htr|]. by rewrite Hem, ruleSnapshots_app, Hrs. }
  split; [|split; [done|congruence]].
  unfold RuleProvider.updateRules.
  assert (Hp' : exists pr', services (fst (next p w1)) !! p = Some pr' /\
                            deref (arrays (fst (next p w1))) (items pr') = l).
  { unfold contents in Hcont. destruct (services (fst (next p w1)) !! p) as [pr'|] eqn:E.
    - exists pr'. split; [done|]. exact Hcont.
    - unfold emitted in Hem. by rewrite E in Hem. }
  destruct Hp' as (pr' & Hp' & Hd').
  destruct (next_emitted (fst (next p w1)) p pr' Hp') as (_ & -> & _). by rewrite Hd'.
Qed.

(** C7 (as amended).  [addRule] on a producer that is registered exactly once:
    one snapshot leaves the producer, the controller publishes one merged rule
    array, the trigger runs once, and the merged array, which is what the
    evaluator receives, holds the new rule. *)
Theorem addRule_reaches_the_evaluator_once s p rp l rule :
  joined (ruleSide s) ->
  services (ruleSide s) !! p = Some rp ->
  arrays (ruleSide s) !! items rp = Some l ->
  count_occ Nat.eq_dec (registered (ruleSide s)) p = 1 ->
  let s' := step (AddRule p rule) s in
  exists evs,
    trace s' = trace s ++ evs /\
    ruleSnapshots evs = [(p, l ++ [rule])] /\
    ruleUpdates evs = [AdaptationController.getRules s'] /\
    triggers evs = 1 /\
    In rule (AdaptationController.getRules s') /\
    match ruleEvaluator s with
    | Some _ => evaluations evs = [(AdaptationController.getRules s', context s)]
    | None => evaluations evs = []
    end.
Proof.
  intros Hj Hp Hl Hcount. cbn.
  set (w1 := mkAggregator (push (items rp) rule (arrays (ruleSide s)))
               (services (ruleSide s)) (registered (ruleSide s)) (join (ruleSide s))).
  assert (Hadd : RuleProvider.addRule p rule (ruleSide s) = next p w1).
  { unfold RuleProvider.addRule. by rewrite Hp. }
  destruct (ruleNext_trace p (RuleProvider.addRule p rule (ruleSide s)) s)
    as (evs & Htr & Hrs & Hru & Htrig & Hev & Hside & Hrules).
  cbn in Htr, Hside, Hrules.
  unfold AdaptationController.getRules. rewrite Hrules. rewrite Hadd in *.
  assert (Hj1 : joined w1) by (by apply joined_arrays).
  destruct (next_joined w1 p rp Hj1 Hp)
    as (w' & outs & Hnext & Hj' & Harr & Hregs & Hserv & Hlen & Hlast).
  destruct (next_emitted w1 p rp Hp) as (_ & Hem & _ & Hlat).
  rewrite Hnext in *. cbn [fst snd] in *. cbn in Hlen, Hlast, Hregs, Hem, Hlat.
  assert (Hnew : deref (push (items rp) rule (arrays (ruleSide s))) (items rp) = l ++ [rule]).
  { apply deref_lookup. by apply lookup_push. }
  rewrite Hnew in *. rewrite Hcount in *.
  specialize (Hlast ltac:(done)).
  apply (last_singleton _ _ Hlen) in Hlast. clear Hlen. rewrite Hlast in *. cbn in *.
  exists ([RuleSnapshot p (l ++ [rule])] ++ evs).
  rewrite ruleSnapshots_app, ruleUpdates_app, triggers_app, evaluations_app.
  rewrite Hrs, Hru, Htrig, Hev.
  repeat split; try done.
  - rewrite Hem in *. exact Htr.
  - unfold mergedLatest. apply in_concat. exists (l ++ [rule]). split.
    + rewrite <- Hlat. apply in_map. rewrite Hregs.
      apply (count_occ_In Nat.eq_dec). lia.
    + apply in_app_iff. right. by left.
  - by destruct (ruleEvaluator s).
Qed.

(* ===================================================================== *)
(** ** The merged context stream                                          *)
(* ===================================================================== *)

(** Registration seen from the controller. *)
Lemma registerContextProvider_trace s token :
  joined (contextSide s) ->
  is_Some (services (contextSide s) !! token) ->
  let s' := AdaptationController.registerContextProvider token s in
  joined (contextSide s') /\
  registered (contextSide s') = registered (contextSide s) ++ [token] /\
  arrays (contextSide s') = arrays (contextSide s) /\
  (forall p, latest (contextSide s') p = latest (contextSide s) p) /\
  context s' = mergedLatest (contextSide s') /\
  exists evs,
    trace s' = trace s ++ evs /\
    contextSnapshots evs = [] /\
    contextUpdates evs = [mergedLatest (contextSide s')] /\
    triggers evs = 1.
Proof.
  intros Hj Htok. cbn. unfold AdaptationController.registerContextProvider.
  destruct (register_joined (contextSide s) token (proj1 Hj) Htok)
    as (w' & -> & Hj' & Harr & Hregs & _ & Hcur & _).
  destruct (contextEmissions_grows [mergedLatest w'] (set_contextSide w' s))
    as (evs & (Hc & _ & _ & Ht) & Hcu & _ & Hcs & _ & Htr & _ & Hctx & _).
  cbn in *. rewrite Hc.
  repeat split; try done; try apply Hj'.
  - by apply latest_ext.
  - by exists evs.
Qed.

(** *** The merged arrays of one emission *)

Section PublicationFacts.
Context {A : Type}.
Implicit Types (h : Heap A) (j : CombineLatestSubscriber) (w : Aggregator A).

Lemma refreshed_none {B : Type} p (new : B) (f : nat -> B) regs :
  refreshed p new (f p) f 0 regs = map f regs.
Proof.
  induction regs as [|q regs IH]; cbn; [done|].
  destruct (Nat.eqb_spec q p) as [->|]; by rewrite IH.
Qed.

Lemma refreshed_map {B C : Type} (g : B -> C) p new old others k regs :
  map g (refreshed p new old others k regs)
  = refreshed p (g new) (g old) (fun q => g (others q)) k regs.
Proof.
  revert k. induction regs as [|q regs IH]; intros k; cbn; [done|].
  destruct (Nat.eqb q p); [destruct k|]; cbn; by rewrite IH.
Qed.

(** All registrations served: every slot of [p] holds the new value. *)
Lemma refreshed_all {B : Type} p (new old : B) (f f' : nat -> B) regs k :
  count_occ Nat.eq_dec regs p <= k ->
  f' p = new -> (forall q, q <> p -> f' q = f q) ->
  refreshed p new old f k regs = map f' regs.
Proof.
  intros Hk Hp Hne. revert k Hk.
  induction regs as [|q regs IH]; intros k Hk; cbn; [done|].
  cbn in Hk. destruct (Nat.eqb_spec q p) as [->|Hq].
  - destruct (Nat.eq_dec p p); [|done]. destruct k; [lia|].
    rewrite Hp, IH by lia. done.
  - destruct (Nat.eq_dec q p); [done|]. by rewrite Hne, IH.
Qed.

(** The merged arrays a delivery to [obs] makes a complete join emit: one
    after each slot written. *)
Lemma deliver_outs h v obs : forall j,
  toRespond j = 0 ->
  snd (deliver h v obs j)
  = map (fun k => merged h (fill v (take k obs) (values j))) (seq 1 (length obs)).
Proof.
  induction obs as [|i obs IH]; intros j Hj; cbn [deliver]; [done|].
  rewrite notifyNext_ready by done.
  specialize (IH (mkJoin (<[i := Some v]> (values j)) 0) eq_refl).
  destruct (deliver h v obs _) as [j2 outs]. cbn [snd values] in IH |- *. rewrite IH.
  cbn [option_list app length seq map]. f_equal.
  rewrite <- (seq_shift (length obs) 1), map_map. done.
Qed.

(** The slots after the first [k] registrations of [p] were written. *)
Lemma fill_take_indices v p (f : nat -> option nat) regs : forall pre k,
  fill v (take k (indicesFrom (length pre) p regs)) (pre ++ map f regs)
  = pre ++ refreshed p (Some v) (f p) f k regs.
Proof.
  induction regs as [|q regs IH]; intros pre k; cbn [indicesFrom map refreshed].
  - by rewrite take_nil.
  - destruct (Nat.eqb_spec q p) as [->|Hq].
    + destruct k as [|k]; cbn [app take].
      * cbn. by rewrite refreshed_none.
      * cbn [fill fold_left].
        assert (Hins : <[length pre := Some v]> (pre ++ f p :: map f regs)
                       = (pre ++ [Some v]) ++ map f regs).
        { rewrite <- app_assoc. cbn.
          replace (length pre) with (length pre + 0) by lia.
          by rewrite insert_app_r. }
        rewrite Hins.
        replace (S (length pre)) with (length (pre ++ [Some v]))
          by (rewrite length_app; cbn; lia).
        unfold fill in IH. rewrite IH, <- app_assoc. done.
    + cbn [app].
      change (pre ++ f q :: map f regs) with (pre ++ [f q] ++ map f regs).
      rewrite app_assoc.
      replace (S (length pre)) with (length (pre ++ [f q]))
        by (rewrite length_app; cbn; lia).
      rewrite IH, <- app_assoc. done.
Qed.

(** What the join publishes when producer [p] emits on a complete join: one
    merged array per registration of [p], the [k]-th being [publication w p k]. *)
Lemma next_publications w p pr :
  joined w -> services w !! p = Some pr ->
  snd (next p w)
  = map (publication w p) (seq 1 (count_occ Nat.eq_dec (registered w) p)).
Proof.
  intros (Hreg & Hvals & Hresp & Hobs) Hp. unfold next. rewrite Hp.
  pose proof (deliver_outs (arrays w) (items pr) (observers (subject pr)) (join w) Hresp)
    as Houts.
  destruct (deliver _ _ _ _) as [j outs]. cbn in Houts |- *. rewrite Houts.
  rewrite (Hobs _ _ Hp), indicesFrom_length. apply map_ext. intros k.
  rewrite Hvals.
  pose proof (fill_take_indices (items pr) p
                (fun tok => Some (currentOf (services w) tok)) (registered w) [] k) as Hfill.
  cbn [length app] in Hfill. rewrite Hfill. unfold merged, publication. rewrite refreshed_map. cbn.
  unfold contents, latest. rewrite Hp. cbn. done.
Qed.

(** The last of them is the concatenation of everybody's latest snapshot
    after the emission. *)
Lemma publication_last w p pr :
  services w !! p = Some pr ->
  publication w p (count_occ Nat.eq_dec (registered w) p)
  = mergedLatest (fst (next p w)).
Proof.
  intros Hp. unfold publication, mergedLatest.
  destruct (next_emitted w p pr Hp) as (Harr & _ & _ & Hlat).
  assert (Hc : contents w p = deref (arrays w) (items pr)).
  { unfold contents. by rewrite Hp. }
  assert (Hregs : registered (fst (next p w)) = registered w).
  { unfold next. rewrite Hp. by destruct (deliver _ _ _ _). }
  rewrite Hregs. f_equal.
  apply refreshed_all; [lia|congruence|].
  intros q Hq. unfold latest. rewrite Harr. f_equal.
  unfold next. rewrite Hp. destruct (deliver _ _ _ _) as [j outs]. cbn.
  rewrite currentOf_insert by (by eapply lookup_lt_Some).
  destruct (Nat.eqb_spec q p); done.
Qed.

End PublicationFacts.

(** C2 (as amended).  On a side whose join is complete:
    - registering a producer rebuilds the join and, every subject replaying
      its current value to the new join, the registration itself publishes
      exactly one merged array although no producer emits; the join is
      complete again afterwards;
    - an emission of a producer is published once per registration of that
      producer, so exactly once for a producer registered once.  The [k]-th
      of these merged arrays is [publication]: the concatenation, in
      registration order, of the latest snapshot of every registered
      producer, where the emitting producer contributes its new snapshot at
      its first [k] registrations and the snapshot its subject held before at
      the remaining ones.  So the only merged array of a producer registered
      once, and the last one in general, is the concatenation of the latest
      snapshot of every registered producer. *)
Theorem merged_context_stream s :
  joined (contextSide s) ->
  (forall token,
     is_Some (services (contextSide s) !! token) ->
     let s' := AdaptationController.registerContextProvider token s in
     joined (contextSide s') /\
     exists evs,
       trace s' = trace s ++ evs /\
       contextSnapshots evs = [] /\
       contextUpdates evs = [mergedLatest (contextSide s')]) /\
  (forall p,
     is_Some (services (contextSide s) !! p) ->
     let s' := step (UpdateContext p) s in
     let n := count_occ Nat.eq_dec (registered (contextSide s)) p in
     joined (contextSide s') /\
     registered (contextSide s') = registered (contextSide s) /\
     exists evs,
       trace s' = trace s ++ evs /\
       contextSnapshots evs = [(p, contents (contextSide s) p)] /\
       contextUpdates evs = map (publication (contextSide s) p) (seq 1 n) /\
       publication (contextSide s) p n = mergedLatest (contextSide s') /\
       length (contextUpdates evs) = n /\
       (n <> 0 -> last (contextUpdates evs) = Some (mergedLatest (contextSide s'))) /\
       (n = 1 -> contextUpdates evs = [mergedLatest (contextSide s')])).
Proof.
  intros Hj. split.
  - intros token Htok.
    destruct (registerContextProvider_trace s token Hj Htok)
      as (Hj' & _ & _ & _ & _ & evs & Ht & Hcs & Hcu & _).
    cbn. split; [done|]. by exists evs.
  - intros p [pr Hp]. cbn.
    destruct (contextNext_trace p (ContextProvider.updateContext p (contextSide s)) s)
      as (evs & Htr & Hcs & Hcu & _ & Hside & _).
    cbn in Htr, Hside. rewrite Hside.
    unfold ContextProvider.updateContext in *.
    pose proof (next_publications (contextSide s) p pr Hj Hp) as Hpub.
    pose proof (publication_last (contextSide s) p pr Hp) as Hfull.
    destruct (next_joined (contextSide s) p pr Hj Hp)
      as (w' & outs & Hnext & Hj' & Harr & Hregs & Hserv & Hlen & Hlast).
    destruct (next_emitted (contextSide s) p pr Hp) as (_ & Hem & _).
    rewrite Hnext in *. cbn [fst snd] in *.
    split; [done|]. split; [done|].
    exists ([ContextSnapshot p (contents (contextSide s) p)] ++ evs).
    rewrite contextSnapshots_app, contextUpdates_app, Hcs, Hcu.
    split; [|split; [done|]; split; [done|]; split; [done|]; split; [done|]; split; [done|]].
    + rewrite Htr, Hem. unfold contents. by rewrite Hp.
    + intros H1. cbn. apply last_singleton; [by rewrite Hlen|]. apply Hlast.
      by rewrite H1.
Qed.


(* ===================================================================== *)
(** ** The example application                                            *)
(* ===================================================================== *)

(** The scenario of the documentation: the user turns out to be left-handed;
    the evaluator emits [HIDE] for the right button and [SHOW] for the left
    one, in this order, and each button receives its own action only. *)
Example left_handed_scenario :
  since application
        (run [ModifyContextParam 0 "handedness"%string (JsString "left"%string);
              UpdateContext 0] application)
  = [ContextSnapshot 0 [handedness "left"%string];
     ContextUpdated [handedness "left"%string];
     Evaluate [USER_IS_RIGHT_HANDED; USER_IS_LEFT_HANDED] [handedness "left"%string];
     Adapt 0 (button (Some ["rightBtn"%string]) "HIDE"%string);
     AdaptationTriggered (button (Some ["rightBtn"%string]) "HIDE"%string);
     Adapt 1 (button (Some ["leftBtn"%string]) "SHOW"%string);
     AdaptationTriggered (button (Some ["leftBtn"%string]) "SHOW"%string)].
Proof. reflexivity. Qed.

(** Arrays are shared: a parameter added after the last emission of its
    provider is already in the array the join holds, and shows up in the next
    merged array although its provider has not emitted it. *)
Example unpublished_parameter_is_merged :
  let s := run [RegisterContextProvider 1] oneProducerPublished in
  contextUpdates
    (since s (run [AddContextParam 0 (handedness "right"%string); UpdateContext 1] s))
  = [[handedness "unknown"%string; handedness "right"%string]].
Proof. reflexivity. Qed.

(* ===================================================================== *)
(** ** Instances on the example application                            *)
(* ===================================================================== *)

(** An action for the buttons that comes without [scope] reaches neither
    button; with [scope: []] the same action reaches the right button. *)
Lemma absent_scope_is_not_delivered_witness :
  let d := adaptationActions twoButtons in
  let action := button None "HIDE"%string in
  AdaptiveWidget.addressed (mkWidget "HideableButtonAW"%string "rightBtn"%string
                              AdaptiveWidget.base_adapt) action = None /\
  ~ In (Adapt 1 action) (snd (ActionStream.next action d)) /\
  In (HostError 1) (snd (ActionStream.next action d)) /\
  In (Adapt 1 (button (Some []) "HIDE"%string))
     (snd (ActionStream.next (button (Some []) "HIDE"%string) d)).
Proof.
  apply (absent_scope_is_not_delivered (adaptationActions twoButtons) 1
           (mkWidget "HideableButtonAW"%string "rightBtn"%string AdaptiveWidget.base_adapt)
           (button None "HIDE"%string)).
  - reflexivity.
  - simpl. tauto.
  - reflexivity.
  - reflexivity.
Defined.

(** The right button is torn down and still adapts. *)
Lemma destroyed_widget_still_adapts_witness :
  let action := button (Some ["rightBtn"%string]) "HIDE"%string in
  actionObservers (adaptationActions (step (NgOnDestroy 1) twoButtons)) = [0; 1] /\
  exists evs,
    trace (AdaptationController.fireAdaptation action (step (NgOnDestroy 1) twoButtons))
    = trace twoButtons ++ evs /\
    In (Adapt 1 action) evs.
Proof.
  apply (destroyed_widget_still_adapts twoButtons 1
           (mkWidget "HideableButtonAW"%string "rightBtn"%string AdaptiveWidget.base_adapt)
           (button (Some ["rightBtn"%string]) "HIDE"%string)).
  - reflexivity.
  - simpl. tauto.
  - reflexivity.
Defined.

(** The left button throws on a broadcast to all buttons; the right button,
    which comes after it in the observer list, adapts all the same. *)
Lemma throwing_handler_does_not_stop_delivery_witness :
  let d := adaptationActions twoButtons in
  let action := button (Some []) "HIDE"%string in
  In (Adapt 1 action) (snd (ActionStream.next action d)) /\
  In (Adapt 0 action) (snd (ActionStream.next action d)) /\
  In (HostError 0) (snd (ActionStream.next action d)).
Proof.
  apply (throwing_handler_does_not_stop_delivery (adaptationActions twoButtons)
           (button (Some []) "HIDE"%string)
           0 (mkWidget "HideableButtonAW"%string "leftBtn"%string (fun _ => Throws))
           1 (mkWidget "HideableButtonAW"%string "rightBtn"%string AdaptiveWidget.base_adapt)).
  - reflexivity.
  - simpl. tauto.
  - reflexivity.
  - reflexivity.
  - reflexivity.
  - simpl. tauto.
  - lia.
  - reflexivity.
Defined.

(** Adding a second [handedness] parameter to the first provider. *)
Lemma addContextParam_always_appends_witness :
  let s' := step (AddContextParam 0 (handedness "left"%string)) twoContextProviders in
  contents (contextSide s') 0 = [handedness "unknown"%string; handedness "left"%string] /\
  ~ NoDup (map key (contents (contextSide s') 0)).
Proof.
  destruct (addContextParam_always_appends twoContextProviders 0
              (mkProvider 0 (mkSubject 1 [])) [handedness "unknown"%string]
              (handedness "left"%string) eq_refl eq_refl)
    as (Hc & _ & _ & _ & Hdup).
  split; [exact Hc|].
  apply (Hdup (handedness "unknown"%string)); [simpl; tauto | reflexivity].
Defined.

(** Modifying the [handedness] parameter of the first provider, and a key it
    does not hold. *)
Lemma modifyContextParam_moves_to_end_witness :
  contents (contextSide (step (ModifyContextParam 0 "handedness"%string
                                 (JsString "left"%string)) twoContextProviders)) 0
  = [handedness "left"%string] /\
  step (ModifyContextParam 0 "age"%string (JsNumber 30)) twoContextProviders
  = twoContextProviders.
Proof.
  split.
  - destruct (modifyContextParam_moves_to_end twoContextProviders 0
                (mkProvider 0 (mkSubject 1 [])) [handedness "unknown"%string]
                "handedness"%string (JsString "left"%string) eq_refl eq_refl)
      as [Hmod _].
    destruct (Hmod [] (handedness "unknown"%string) [] eq_refl eq_refl) as [Hc _].
    + simpl. tauto.
    + exact Hc.
  - destruct (modifyContextParam_moves_to_end twoContextProviders 0
                (mkProvider 0 (mkSubject 1 [])) [handedness "unknown"%string]
                "age"%string (JsNumber 30) eq_refl eq_refl)
      as [_ Hsame].
    apply Hsame. simpl. intros x [<-|[]]. discriminate.
Defined.

(** Removing a rule the provider does not hold. *)
Lemma removeRule_of_unknown_name_witness :
  let s' := step (RemoveRule 0 "USER_IS_LEFT_HANDED"%string) oneRuleProvider in
  contents (ruleSide s') 0 = [USER_IS_RIGHT_HANDED] /\
  latest (ruleSide s') 0 = latest (ruleSide oneRuleProvider) 0.
Proof.
  destruct (removeRule_of_unknown_name oneRuleProvider 0
              (mkProvider 0 (mkSubject 0 [0])) [USER_IS_RIGHT_HANDED]
              "USER_IS_LEFT_HANDED"%string eq_refl eq_refl)
    as (Hc & _ & _ & _ & _ & Hl).
  - simpl. intros rule [<-|[]]. discriminate.
  - split; [exact Hc|]. apply Hl. reflexivity.
Defined.

(** A rule added to a provider that is registered once. *)
Lemma addRule_reaches_the_evaluator_once_witness :
  let s' := step (AddRule 0 USER_IS_LEFT_HANDED) oneRuleProvider in
  exists evs,
    trace s' = trace oneRuleProvider ++ evs /\
    ruleSnapshots evs = [(0, [USER_IS_RIGHT_HANDED; USER_IS_LEFT_HANDED])] /\
    ruleUpdates evs = [AdaptationController.getRules s'] /\
    triggers evs = 1 /\
    In USER_IS_LEFT_HANDED (AdaptationController.getRules s') /\
    evaluations evs = [].
Proof.
  apply (addRule_reaches_the_evaluator_once oneRuleProvider 0
           (mkProvider 0 (mkSubject 0 [0])) [USER_IS_RIGHT_HANDED] USER_IS_LEFT_HANDED).
  - repeat split.
    + repeat constructor.
    + intros [|p] pr; simpl; [intros [= <-]; reflexivity | discriminate].
  - reflexivity.
  - reflexivity.
  - reflexivity.
Defined.

(** C7.  A provider that was registered twice: one [addRule], one snapshot
    from the provider, and the trigger runs twice. *)
Lemma twice_registered_provider_triggers_twice :
  let s' := step (AddRule 0 USER_IS_LEFT_HANDED) registeredTwice in
  let evs := since registeredTwice s' in
  In 0 (registered (ruleSide registeredTwice)) /\
  toRespond (join (ruleSide registeredTwice)) = 0 /\
  trace s' = trace registeredTwice ++ evs /\
  ruleSnapshots evs = [(0, [USER_IS_LEFT_HANDED])] /\
  triggers evs = 2 /\
  ~ triggers evs = 1.
Proof. simpl. repeat split; try reflexivity; try tauto. discriminate. Defined.

(** The second provider is registered on the join of the first, and then the
    first one emits; and the emission of a provider registered twice, of which
    the first merged array still carries the old snapshot at the second
    registration. *)
Lemma merged_context_stream_witness :
  (let s' := AdaptationController.registerContextProvider 1 oneProducerPublished in
   exists evs,
     trace s' = trace oneProducerPublished ++ evs /\
     contextSnapshots evs = [] /\
     contextUpdates evs = [mergedLatest (contextSide s')]) /\
  (let s' := step (UpdateContext 0) oneProducerPublished in
   exists evs,
     trace s' = trace oneProducerPublished ++ evs /\
     contextSnapshots evs = [(0, [handedness "unknown"%string])] /\
     contextUpdates evs = [mergedLatest (contextSide s')]) /\
  (let s' := step (UpdateContext 0) modifiedSinceEmission in
   exists evs,
     trace s' = trace modifiedSinceEmission ++ evs /\
     contextSnapshots evs = [(0, [handedness "left"%string])] /\
     contextUpdates evs = [[handedness "left"%string; handedness "unknown"%string];
                           [handedness "left"%string; handedness "left"%string]] /\
     mergedLatest (contextSide s')
     = [handedness "left"%string; handedness "left"%string]).
Proof.
  assert (Hj : joined (contextSide oneProducerPublished)).
  { repeat split.
    - repeat constructor.
    - intros [|[|p]] pr; simpl; [intros [= <-]; reflexivity.. | discriminate]. }
  assert (Hj2 : joined (contextSide modifiedSinceEmission)).
  { repeat split.
    - repeat constructor.
    - intros [|[|p]] pr; simpl; [intros [= <-]; reflexivity.. | discriminate]. }
  destruct (merged_context_stream oneProducerPublished Hj) as [Hreg Hemit].
  destruct (merged_context_stream modifiedSinceEmission Hj2) as [_ Hemit2].
  split; [|split].
  - destruct (Hreg 1) as [_ H]; [by eexists|]. exact H.
  - destruct (Hemit 0) as (_ & _ & evs & Ht & Hcs & _ & _ & _ & _ & Hone); [by eexists|].
    exists evs. split; [exact Ht|]. split; [exact Hcs|]. apply Hone. reflexivity.
  - destruct (Hemit2 0) as (_ & _ & evs & Ht & Hcs & Hcu & Hfull & _); [by eexists|].
    exists evs. split; [exact Ht|]. split; [exact Hcs|]. split; [exact Hcu|].
    symmetry. exact Hfull.
Defined.

(** C2.  Two providers are registered and only the first one emits: the
    second one has emitted nothing, and the controller has published three
    merged arrays, one for each registration and one for the emission.  And a
    provider that is registered twice: one emission, two merged arrays. *)
Lemma barrier_is_not_awaited :
  let s := run [RegisterContextProvider 0; RegisterContextProvider 1; UpdateContext 0]
               twoContextProviders in
  let t := run [RegisterContextProvider 0; RegisterContextProvider 0] twoContextProviders in
  registered (contextSide s) = [0; 1] /\
  contextSnapshots (trace s) = [(0, [handedness "unknown"%string])] /\
  contextUpdates (trace s) = [[]; []; [handedness "unknown"%string]] /\
  ~ ((exists p, In p (registered (contextSide s)) /\
                ~ In p (map fst (contextSnapshots (trace s)))) ->
     contextUpdates (trace s) = []) /\
  length (contextSnapshots (since t (step (UpdateContext 0) t))) = 1 /\
  length (contextUpdates (since t (step (UpdateContext 0) t))) = 2.
Proof.
  simpl. repeat split; try reflexivity.
  intros H. enough (Hnil : [[]; []; [handedness "unknown"%string]] = []) by discriminate.
  apply H. exists 1. split; [tauto|]. intros [Heq|[]]. discriminate.
Defined.




(* ===================================================================== *)
(** ** More about the action stream                                       *)
(* ===================================================================== *)

Lemma adaptations_app i evs1 evs2 :
  adaptations i (evs1 ++ evs2) = adaptations i evs1 ++ adaptations i evs2.
Proof. apply flat_map_app. Qed.


(** What one observer contributes to the calls of [adapt] of widget [i]. *)
Lemma notify_adaptations action i k d :
  adaptations i (snd (ActionStream.notify action k d))
  = match widgets d !! k with
    | Some w =>
        if Nat.eqb k i
        then match AdaptiveWidget.addressed w action with
             | Some true => [action]
             | _ => []
             end
        else []
    | None => []
    end.
Proof.
  unfold ActionStream.notify. destruct (widgets d !! k) as [w|]; [|done].
  destruct (AdaptiveWidget.addressed w action) as [[]|]; cbn.
  - destruct (adapt w action); cbn; destruct (Nat.eqb k i); done.
  - by destruct (Nat.eqb k i).
  - by destruct (Nat.eqb k i).
Qed.

Lemma broadcast_adaptations_absent action i obs d :
  ~ In i obs -> adaptations i (snd (ActionStream.broadcast action obs d)) = [].
Proof.
  rewrite broadcast_events. induction obs as [|k obs IH]; intros Hin; [done|].
  cbn [flat_map]. rewrite adaptations_app, IH by (intros ?; apply Hin; by right).
  rewrite notify_adaptations, app_nil_r.
  destruct (widgets d !! k); [|done].
  destruct (Nat.eqb_spec k i) as [->|]; [|done]. exfalso. apply Hin. by left.
Qed.

(** X1.  Scope filtering.  For an action that carries a [scope], [adapt] of a
    subscribed widget is called exactly once when the action's target is the
    widget's name and the scope is empty or lists the widget's namespace, and
    not at all otherwise. *)
Theorem delivery_exactly_once d i w action sc :
  NoDup (actionObservers d) ->
  widgets d !! i = Some w ->
  In i (actionObservers d) ->
  AdaptationAction.scope action = Some sc ->
  (AdaptationAction.target action = name w /\ (sc = [] \/ In (namespace w) sc) ->
   adaptations i (snd (ActionStream.next action d)) = [action]) /\
  (~ (AdaptationAction.target action = name w /\ (sc = [] \/ In (namespace w) sc)) ->
   adaptations i (snd (ActionStream.next action d)) = []).
Proof.
  intros Hnd Hw Hin Hsc. unfold ActionStream.next.
  apply list_elem_of_In, list_elem_of_split in Hin as (l1 & l2 & Hobs).
  rewrite Hobs in Hnd. apply NoDup_app in Hnd as (_ & Hl1 & Hnd).
  apply NoDup_cons in Hnd as [Hl2 _].
  assert (Hone : adaptations i (snd (ActionStream.broadcast action (actionObservers d) d))
                 = match AdaptiveWidget.addressed w action with
                   | Some true => [action]
                   | _ => []
                   end).
  { rewrite broadcast_events, Hobs, flat_map_app. cbn [flat_map].
    rewrite !adaptations_app, <- !broadcast_events.
    rewrite !broadcast_adaptations_absent.
    - rewrite notify_adaptations, Hw, Nat.eqb_refl. cbn. by rewrite app_nil_r.
    - intros H%list_elem_of_In. done.
    - intros H%list_elem_of_In. apply (Hl1 i); [done|]. by left. }
  rewrite Hone.
  pose proof (addressed_with_scope w action sc Hsc) as Hiff.
  split.
  - intros H. by rewrite (proj2 Hiff H).
  - intros H. destruct (AdaptiveWidget.addressed w action) as [[]|] eqn:E; try done.
    exfalso. apply H, Hiff. done.
Qed.

(** X2.  An action whose target is the name of no widget has no effect at
    all, with or without [scope]: no [adapt] is called, nothing is reported
    and every subscription stays. *)
Theorem foreign_target_is_ignored d action :
  (forall i w, widgets d !! i = Some w -> AdaptationAction.target action <> name w) ->
  ActionStream.next action d = (d, []).
Proof.
  intros Hforeign. unfold ActionStream.next.
  generalize (actionObservers d) as obs.
  induction obs as [|k obs IH]; cbn [ActionStream.broadcast]; [done|].
  assert (Hk : ActionStream.notify action k d = (d, [])).
  { unfold ActionStream.notify. destruct (widgets d !! k) as [w|] eqn:Hw; [|done].
    unfold AdaptiveWidget.addressed.
    destruct (String.eqb_spec (AdaptationAction.target action) (name w)) as [Heq|]; [|done].
    by destruct (Hforeign k w Hw). }
  by rewrite Hk, IH.
Qed.

Lemma notify_fst action k d :
  fst (ActionStream.notify action k d)
  = if fails d action k then ActionStream.close k d else d.
Proof.
  unfold ActionStream.notify, fails. destruct (widgets d !! k) as [w|]; [|done].
  destruct (AdaptiveWidget.addressed w action) as [[]|]; [|done..].
  by destruct (adapt w action).
Qed.

Lemma fails_widgets d d' action k :
  widgets d' = widgets d -> fails d' action k = fails d action k.
Proof. intros H. unfold fails. by rewrite H. Qed.

(** Who is still subscribed after a broadcast over [obs]: everybody who was,
    except the observers of [obs] whose subscription failed. *)
Lemma broadcast_observers action k obs : forall d,
  In k (actionObservers (fst (ActionStream.broadcast action obs d)))
  <-> In k (actionObservers d) /\ ~ (In k obs /\ fails d action k = true).
Proof.
  induction obs as [|j obs IH]; intros d; cbn [ActionStream.broadcast].
  - cbn. tauto.
  - pose proof (notify_widgets action j d) as Hw.
    pose proof (notify_fst action j d) as Hf.
    destruct (ActionStream.notify action j d) as [d1 e1]. cbn in Hw, Hf.
    specialize (IH d1). destruct (ActionStream.broadcast action obs d1) as [d2 e2].
    cbn in *. rewrite IH, (fails_widgets d d1) by done. subst d1.
    destruct (fails d action j) eqn:Hj.
    + unfold ActionStream.close. cbn. rewrite filter_In, negb_true_iff, Nat.eqb_neq.
      split.
      * intros [[Hin Hne] Hno]. split; [done|]. intros [[->|Hobs] Hk]; [done|].
        apply Hno. done.
      * intros [Hin Hno]. split; [split; [done|]|].
        -- intros ->. apply Hno. split; [by left|done].
        -- intros [Hobs Hk]. apply Hno. split; [by right|done].
    + split.
      * intros [Hin Hno]. split; [done|]. intros [[->|Hobs] Hk]; [congruence|].
        apply Hno. done.
      * intros [Hin Hno]. split; [done|]. intros [Hobs Hk]. apply Hno.
        split; [by right|done].
Qed.

Lemma notify_adapt_self action i later k d :
  In (Adapt i later) (snd (ActionStream.notify action k d)) -> k = i.
Proof.
  unfold ActionStream.notify. destruct (widgets d !! k) as [w|]; [|done].
  destruct (AdaptiveWidget.addressed w action) as [[]|]; cbn.
  - destruct (adapt w action); cbn; intuition congruence.
  - done.
  - intuition congruence.
Qed.

(** [adapt] is only called on widgets that are subscribed. *)
Lemma adapt_only_if_subscribed action i later obs d :
  In (Adapt i later) (snd (ActionStream.broadcast action obs d)) -> In i obs.
Proof.
  rewrite broadcast_events. intros (k & Hk & Hin)%in_flat_map.
  by apply notify_adapt_self in Hin as <-.
Qed.

(** X3.  A widget whose subscription fails on an action (the filter raises on
    a missing [scope], or [adapt] throws) is unsubscribed by that very
    broadcast: no later action reaches it, whatever its target and scope.
    The widgets that did not fail stay subscribed. *)
Theorem failed_widget_is_unsubscribed d i action :
  In i (actionObservers d) ->
  fails d action i = true ->
  let d' := fst (ActionStream.next action d) in
  ~ In i (actionObservers d') /\
  (forall later, ~ In (Adapt i later) (snd (ActionStream.next later d'))) /\
  (forall k, In k (actionObservers d) -> fails d action k = false ->
             In k (actionObservers d')).
Proof.
  intros Hin Hfail. cbn. unfold ActionStream.next.
  assert (Hgone : ~ In i (actionObservers
                            (fst (ActionStream.broadcast action (actionObservers d) d)))).
  { rewrite broadcast_observers. intros [_ Hno]. by apply Hno. }
  split; [done|]. split.
  - intros later Hlater. apply Hgone. by eapply adapt_only_if_subscribed.
  - intros k Hk Hok. apply broadcast_observers. split; [done|]. intros [_ ?]. congruence.
Qed.







(* ===================================================================== *)
(** ** What every sequence of calls keeps                                 *)
(* ===================================================================== *)

Lemma snapshots_silent_context p l :
  contextUpdates (map (ContextSnapshot p) l) = [] /\
  ruleUpdates (map (ContextSnapshot p) l) = [] /\
  triggers (map (ContextSnapshot p) l) = 0.
Proof. induction l as [|x l (? & ? & ?)]; cbn; done. Qed.

Lemma snapshots_silent_rules p l :
  contextUpdates (map (RuleSnapshot p) l) = [] /\
  ruleUpdates (map (RuleSnapshot p) l) = [] /\
  triggers (map (RuleSnapshot p) l) = 0.
Proof. induction l as [|x l (? & ? & ?)]; cbn; done. Qed.

Lemma accounted_refl s s' :
  trace s' = trace s -> context s' = context s -> rules s' = rules s ->
  accounted s s'.
Proof. intros Ht Hc Hr. exists []. by rewrite app_nil_r. Qed.

Lemma accounted_trans s1 s2 s3 :
  accounted s1 s2 -> accounted s2 s3 -> accounted s1 s3.
Proof.
  intros (e1 & Ht1 & Hn1 & Hc1 & Hr1) (e2 & Ht2 & Hn2 & Hc2 & Hr2).
  exists (e1 ++ e2).
  rewrite Ht2, Ht1, app_assoc, triggers_app, contextUpdates_app, ruleUpdates_app,
    !length_app, !last_app, Hn1, Hn2, Hc2, Hr2, Hc1, Hr1.
  repeat split; [lia| |].
  - by destruct (last (contextUpdates e2)).
  - by destruct (last (ruleUpdates e2)).
Qed.

Lemma contextEmissions_accounted outs s :
  accounted s (AdaptationController.contextEmissions outs s).
Proof.
  destruct (contextEmissions_grows outs s)
    as (evs & (_ & _ & _ & Ht) & Hcu & Hru & _ & _ & Htr & _ & Hc & Hr).
  exists evs. cbn in *. rewrite Hcu, Hru, Htr. cbn. repeat split; try done.
Qed.

Lemma ruleEmissions_accounted outs s :
  accounted s (AdaptationController.ruleEmissions outs s).
Proof.
  destruct (ruleEmissions_grows outs s)
    as (evs & (_ & _ & _ & Ht) & Hru & Hcu & _ & _ & Htr & _ & Hr & Hc).
  exists evs. cbn in *. rewrite Hcu, Hru, Htr. cbn. repeat split; try done.
Qed.

Lemma step_accounted op s : accounted s (step op s).
Proof.
  destruct op; cbn [step]; try (by apply accounted_refl).
  - unfold contextNext.
    eapply accounted_trans; [|apply contextEmissions_accounted].
    destruct (snapshots_silent_context p
                (emitted (fst (ContextProvider.updateContext p (contextSide s))) p))
      as (H1 & H2 & H3).
    eexists. cbn. split; [reflexivity|]. by rewrite H1, H2, H3.
  - unfold ruleNext.
    eapply accounted_trans; [|apply ruleEmissions_accounted].
    destruct (snapshots_silent_rules p
                (emitted (fst (RuleProvider.updateRules p (ruleSide s))) p))
      as (H1 & H2 & H3).
    eexists. cbn. split; [reflexivity|]. by rewrite H1, H2, H3.
  - unfold ruleNext.
    eapply accounted_trans; [|apply ruleEmissions_accounted].
    destruct (snapshots_silent_rules p
                (emitted (fst (RuleProvider.addRule p rule (ruleSide s))) p))
      as (H1 & H2 & H3).
    eexists. cbn. split; [reflexivity|]. by rewrite H1, H2, H3.
  - unfold ruleNext.
    eapply accounted_trans; [|apply ruleEmissions_accounted].
    destruct (snapshots_silent_rules p
                (emitted (fst (RuleProvider.removeRule p n (ruleSide s))) p))
      as (H1 & H2 & H3).
    eexists. cbn. split; [reflexivity|]. by rewrite H1, H2, H3.
  - unfold AdaptationController.registerContextProvider.
    destruct (register token (contextSide s)) as [[w outs]|].
    + eapply accounted_trans; [|apply contextEmissions_accounted].
      by apply accounted_refl.
    + by exists [InjectorError token].
  - unfold AdaptationController.registerRuleProvider.
    destruct (register token (ruleSide s)) as [[w outs]|].
    + eapply accounted_trans; [|apply ruleEmissions_accounted].
      by apply accounted_refl.
    + by exists [InjectorError token].
Qed.

Lemma run_accounted ops : forall s, accounted s (run ops s).
Proof.
  unfold run. induction ops as [|op ops IH]; intros s; cbn [fold_left].
  - by apply accounted_refl.
  - eapply accounted_trans; [apply step_accounted|apply IH].
Qed.

(** X6.  After any sequence of calls neither join is waiting for a producer:
    the counter of awaited inputs is zero, there is one slot per
    registration, no slot is empty, and every registered token has a
    service. *)
Theorem joins_never_wait ops :
  let s := run ops initial in
  (toRespond (join (contextSide s)) = 0 /\
   length (values (join (contextSide s))) = length (registered (contextSide s)) /\
   Forall is_Some (values (join (contextSide s))) /\
   Forall (fun tok => is_Some (services (contextSide s) !! tok))
          (registered (contextSide s))) /\
  (toRespond (join (ruleSide s)) = 0 /\
   length (values (join (ruleSide s))) = length (registered (ruleSide s)) /\
   Forall is_Some (values (join (ruleSide s))) /\
   Forall (fun tok => is_Some (services (ruleSide s) !! tok))
          (registered (ruleSide s))).
Proof.
  destruct (reachable_joined ops) as [(Hc1 & Hc2 & Hc3 & _) (Hr1 & Hr2 & Hr3 & _)].
  cbn. split.
  - rewrite Hc2, length_map. repeat split; try done.
    + apply Forall_fmap, Forall_true. by eexists.
    + eapply Forall_impl; [exact Hc1|]. intros tok. apply lookup_lt_is_Some_2.
  - rewrite Hr2, length_map. repeat split; try done.
    + apply Forall_fmap, Forall_true. by eexists.
    + eapply Forall_impl; [exact Hr1|]. intros tok. apply lookup_lt_is_Some_2.
Qed.

(** X7.  After any sequence of calls [getContext] returns the merged context
    array that was published last and [getRules] the merged rule array that
    was published last, the empty array when none was published yet. *)
Theorem getters_return_the_last_publication ops :
  let s := run ops initial in
  AdaptationController.getContext s = default [] (last (contextUpdates (trace s))) /\
  AdaptationController.getRules s = default [] (last (ruleUpdates (trace s))).
Proof.
  destruct (run_accounted ops initial) as (evs & Ht & _ & Hc & Hr).
  cbn in *. unfold AdaptationController.getContext, AdaptationController.getRules.
  by rewrite Ht, Hc, Hr.
Qed.

(** X8.  After any sequence of calls the trigger has run exactly once for
    every merged array published, context or rules, and never otherwise:
    registering an evaluator, constructing or changing producers and widgets
    do not evaluate. *)
Theorem trigger_runs_once_per_publication ops :
  let s := run ops initial in
  triggers (trace s)
  = length (contextUpdates (trace s)) + length (ruleUpdates (trace s)).
Proof.
  destruct (run_accounted ops initial) as (evs & Ht & Hn & _).
  cbn in *. by rewrite Ht.
Qed.

(* ===================================================================== *)
(** ** The merged rule stream                                             *)
(* ===================================================================== *)

(** Registration of a rule provider seen from the controller. *)
Lemma registerRuleProvider_trace s token :
  joined (ruleSide s) ->
  is_Some (services (ruleSide s) !! token) ->
  let s' := AdaptationController.registerRuleProvider token s in
  joined (ruleSide s') /\
  registered (ruleSide s') = registered (ruleSide s) ++ [token] /\
  arrays (ruleSide s') = arrays (ruleSide s) /\
  (forall p, latest (ruleSide s') p = latest (ruleSide s) p) /\
  rules s' = mergedLatest (ruleSide s') /\
  exists evs,
    trace s' = trace s ++ evs /\
    ruleSnapshots evs = [] /\
    ruleUpdates evs = [mergedLatest (ruleSide s')] /\
    triggers evs = 1.
Proof.
  intros Hj Htok. cbn. unfold AdaptationController.registerRuleProvider.
  destruct (register_joined (ruleSide s) token (proj1 Hj) Htok)
    as (w' & -> & Hj' & Harr & Hregs & _ & Hcur & _).
  destruct (ruleEmissions_grows [mergedLatest w'] (set_ruleSide w' s))
    as (evs & (_ & Hr & _ & Ht) & Hru & _ & _ & Hrs & Htr & _ & Hrules & _).
  cbn in *. rewrite Hr.
  repeat split; try done; try apply Hj'.
  - by apply latest_ext.
  - by exists evs.
Qed.

(** X5.  The rule side behaves like the context side.  Registering a rule
    provider on a complete join rebuilds the join and publishes, during the
    registration and without any provider emitting, exactly one merged rule
    array: the concatenation in registration order of what every registered
    provider's subject holds, which then is what [getRules] returns.  An
    emission of a provider by [updateRules] is published once per
    registration of that provider. *)
Theorem merged_rule_stream s :
  joined (ruleSide s) ->
  (forall token,
     is_Some (services (ruleSide s) !! token) ->
     let s' := AdaptationController.registerRuleProvider token s in
     joined (ruleSide s') /\
     registered (ruleSide s') = registered (ruleSide s) ++ [token] /\
     AdaptationController.getRules s'
     = concat (map (latest (ruleSide s)) (registered (ruleSide s)))
       ++ latest (ruleSide s) token /\
     exists evs,
       trace s' = trace s ++ evs /\
       ruleSnapshots evs = [] /\
       ruleUpdates evs = [AdaptationController.getRules s'] /\
       triggers evs = 1) /\
  (forall p,
     is_Some (services (ruleSide s) !! p) ->
     let s' := step (UpdateRules p) s in
     let n := count_occ Nat.eq_dec (registered (ruleSide s)) p in
     joined (ruleSide s') /\
     exists evs,
       trace s' = trace s ++ evs /\
       ruleSnapshots evs = [(p, contents (ruleSide s) p)] /\
       length (ruleUpdates evs) = n /\
       triggers evs = n /\
       (n <> 0 -> last (ruleUpdates evs) = Some (mergedLatest (ruleSide s')))).
Proof.
  intros Hj. split.
  - intros token Htok.
    destruct (registerRuleProvider_trace s token Hj Htok)
      as (Hj' & Hregs & _ & Hlat & Hrules & evs & Ht & Hrs & Hru & Htr).
    cbn in *. unfold AdaptationController.getRules.
    assert (Hm : mergedLatest (ruleSide (AdaptationController.registerRuleProvider token s))
                 = concat (map (latest (ruleSide s)) (registered (ruleSide s)))
                   ++ latest (ruleSide s) token).
    { unfold mergedLatest. rewrite Hregs, map_app, concat_app. cbn.
      rewrite app_nil_r, Hlat. f_equal. f_equal. apply map_ext. intros a. apply Hlat. }
    rewrite Hrules, Hm in *. split; [done|]. split; [done|]. split; [done|].
    by exists evs.
  - intros p [pr Hp]. cbn.
    destruct (ruleNext_trace p (RuleProvider.updateRules p (ruleSide s)) s)
      as (evs & Htr & Hrs & Hru & Htrig & _ & Hside & _).
    cbn in Htr, Hside. rewrite Hside.
    unfold RuleProvider.updateRules in *.
    destruct (next_joined (ruleSide s) p pr Hj Hp)
      as (w' & outs & Hnext & Hj' & Harr & Hregs & Hserv & Hlen & Hlast).
    destruct (next_emitted (ruleSide s) p pr Hp) as (_ & Hem & _).
    rewrite Hnext in *. cbn [fst snd] in *.
    split; [done|].
    exists ([RuleSnapshot p (contents (ruleSide s) p)] ++ evs).
    rewrite ruleSnapshots_app, ruleUpdates_app, triggers_app, Hrs, Hru, Htrig.
    repeat split; try done.
    rewrite Htr, Hem. unfold contents. by rewrite Hp.
Qed.

(** X16.  A context provider that is not registered yet emits: nothing is
    published and the trigger does not run, but the snapshot is not lost.
    Its subject keeps it, and the registration of the provider publishes it
    behind the snapshots of the providers registered before. *)
Theorem emission_before_registration_is_replayed s p cp l :
  joined (contextSide s) ->
  services (contextSide s) !! p = Some cp ->
  arrays (contextSide s) !! items cp = Some l ->
  ~ In p (registered (contextSide s)) ->
  let s1 := step (UpdateContext p) s in
  let s2 := AdaptationController.registerContextProvider p s1 in
  (exists evs,
     trace s1 = trace s ++ evs /\
     contextSnapshots evs = [(p, l)] /\ contextUpdates evs = [] /\ triggers evs = 0) /\
  AdaptationController.getContext s1 = AdaptationController.getContext s /\
  (exists evs,
     trace s2 = trace s1 ++ evs /\
     contextSnapshots evs = [] /\
     contextUpdates evs
     = [concat (map (latest (contextSide s)) (registered (contextSide s))) ++ l]).
Proof.
  intros Hj Hp Hl Hnot. cbn.
  destruct (contextNext_trace p (ContextProvider.updateContext p (contextSide s)) s)
    as (evs & Htr & Hcs & Hcu & Htrig & Hside & Hctx).
  cbn in Htr, Hside, Hctx.
  set (s1 := contextNext p (ContextProvider.updateContext p (contextSide s)) s) in *.
  unfold ContextProvider.updateContext in *.
  destruct (next_joined (contextSide s) p cp Hj Hp)
    as (w' & outs & Hnext & Hj' & Harr & Hregs & Hserv & Hlen & _).
  destruct (next_emitted (contextSide s) p cp Hp) as (_ & Hem & _ & Hlat).
  rewrite Hnext in *. cbn [fst snd] in *.
  rewrite (deref_lookup _ _ _ Hl) in *.
  assert (Hz : count_occ Nat.eq_dec (registered (contextSide s)) p = 0)
    by (by apply count_occ_not_In).
  rewrite Hz in Hlen. destruct outs; [|discriminate]. cbn in *.
  split; [|split; [done|]].
  - exists ([ContextSnapshot p l] ++ evs).
    rewrite contextSnapshots_app, contextUpdates_app, triggers_app, Hcs, Hcu, Htrig.
    rewrite Htr, Hem. done.
  - assert (Hj1 : joined (contextSide s1)) by (by rewrite Hside).
    assert (Hp1 : is_Some (services (contextSide s1) !! p)).
    { rewrite Hside, Hserv. apply lookup_lt_is_Some_2. rewrite length_insert.
      by eapply lookup_lt_Some. }
    destruct (registerContextProvider_trace s1 p Hj1 Hp1)
      as (_ & Hregs2 & _ & Hlat2 & _ & evs2 & Ht2 & Hcs2 & Hcu2 & _).
    cbn in *. exists evs2. split; [done|]. split; [done|].
    rewrite Hcu2. f_equal. unfold mergedLatest.
    rewrite Hregs2, Hside, Hregs, map_app, concat_app. cbn. rewrite app_nil_r.
    f_equal.
    + f_equal. apply map_ext_in. intros q Hq. rewrite Hlat2, Hside.
      unfold latest. rewrite Harr, Hserv. f_equal.
      rewrite currentOf_insert by (by eapply lookup_lt_Some).
      destruct (Nat.eqb_spec q p) as [->|]; [done|done].
    + by rewrite Hlat2, Hside.
Qed.

(* ===================================================================== *)
(** ** More about context providers                                       *)
(* ===================================================================== *)

Lemma find_snoc {A : Type} (f : A -> bool) l x :
  List.find f (l ++ [x])
  = match List.find f l with
    | Some y => Some y
    | None => if f x then Some x else None
    end.
Proof.
  induction l as [|y l IH]; cbn; [done|]. by destruct (f y).
Qed.

Lemma find_filter {A : Type} (f g : A -> bool) l :
  (forall x, f x = true -> g x = true) ->
  List.find f (List.filter g l) = List.find f l.
Proof.
  intros Hfg. induction l as [|y l IH]; cbn; [done|].
  destruct (g y) eqn:Hg; cbn.
  - by rewrite IH.
  - destruct (f y) eqn:Hf; [|done]. apply Hfg in Hf. congruence.
Qed.

Lemma getContextParam_contents p k w cp :
  services w !! p = Some cp ->
  ContextProvider.getContextParam p k w
  = List.find (fun param => String.eqb (key param) k) (contents w p).
Proof.
  intros Hp. unfold ContextProvider.getContextParam, contents. by rewrite Hp.
Qed.

(** The provider's record and array after [removeContextParam]. *)
Lemma removeContextParam_contents p k w cp l :
  services w !! p = Some cp ->
  arrays w !! items cp = Some l ->
  let w' := ContextProvider.removeContextParam p k w in
  services w' !! p = Some (mkProvider (length (arrays w)) (subject cp)) /\
  arrays w'
  = arrays w ++ [List.filter (fun param => negb (String.eqb (key param) k)) l] /\
  contents w' p = List.filter (fun param => negb (String.eqb (key param) k)) l /\
  registered w' = registered w /\ join w' = join w /\
  (forall q, subject <$> services w' !! q = subject <$> services w !! q).
Proof.
  intros Hp Hl. cbn. unfold ContextProvider.removeContextParam.
  rewrite Hp, (deref_lookup _ _ _ Hl). cbn.
  assert (Hlt : p < length (services w)) by (by eapply lookup_lt_Some).
  unfold contents. cbn. rewrite list_lookup_insert_eq by done. cbn.
  repeat split; try done.
  - unfold deref. by rewrite lookup_app_r, Nat.sub_diag.
  - intros q. destruct (decide (q = p)) as [->|Hne].
    + rewrite list_lookup_insert_eq by done. by rewrite Hp.
    + by rewrite list_lookup_insert_ne.
Qed.

(** X9.  [removeContextParam] drops every parameter with the key, keeps the
    others in order, and a second call changes nothing more.  It emits
    nothing, and since the field is rebound to a new array, the array last
    handed to the subject is untouched: the provider's latest snapshot still
    holds the removed parameter until [updateContext] is called. *)
Theorem removeContextParam_removes_every_match s p cp l k snapshot :
  services (contextSide s) !! p = Some cp ->
  arrays (contextSide s) !! items cp = Some l ->
  arrays (contextSide s) !! current (subject cp) = Some snapshot ->
  let s' := step (RemoveContextParam p k) s in
  contents (contextSide s') p
  = List.filter (fun param => negb (String.eqb (key param) k)) l /\
  ContextProvider.getContextParam p k (contextSide s') = None /\
  contents (contextSide (step (RemoveContextParam p k) s')) p
  = contents (contextSide s') p /\
  trace s' = trace s /\
  join (contextSide s') = join (contextSide s) /\
  latest (contextSide s') p = snapshot.
Proof.
  intros Hp Hl Hsnap.
  destruct (removeContextParam_contents p k (contextSide s) cp l Hp Hl)
    as (Hp' & Harr & Hc & _ & Hj & Hsub).
  cbn in *. rewrite Hc. split; [done|]. split; [|split; [|split; [done|split; [done|]]]].
  - rewrite (getContextParam_contents _ _ _ _ Hp'), Hc. apply find_absent.
    intros y [_ Hy]%filter_In. by apply negb_true_iff in Hy.
  - assert (Hl' : arrays (ContextProvider.removeContextParam p k (contextSide s))
                  !! items (mkProvider (length (arrays (contextSide s))) (subject cp))
                  = Some (List.filter (fun param => negb (String.eqb (key param) k)) l)).
    { rewrite Harr. cbn. by rewrite lookup_app_r, Nat.sub_diag. }
    destruct (removeContextParam_contents p k _ _ _ Hp' Hl') as (_ & _ & -> & _).
    apply filter_all. intros y [_ Hy]%filter_In. done.
  - unfold latest, currentOf. rewrite Hp', Harr. cbn.
    apply deref_lookup. by apply lookup_app_l_Some.
Qed.

(** X10.  Looking a key up after [addContextParam]: when the provider already
    held a parameter with the key of the new one, [getContextParam] goes on
    returning the old parameter (the first match); otherwise it returns the
    new one.  Lookups of other keys are not affected. *)
Theorem getContextParam_after_addContextParam s p cp l newParam :
  services (contextSide s) !! p = Some cp ->
  arrays (contextSide s) !! items cp = Some l ->
  let w := contextSide s in
  let w' := contextSide (step (AddContextParam p newParam) s) in
  ContextProvider.getContextParam p (key newParam) w'
  = match ContextProvider.getContextParam p (key newParam) w with
    | Some oldParam => Some oldParam
    | None => Some newParam
    end /\
  (forall k, k <> key newParam ->
             ContextProvider.getContextParam p k w'
             = ContextProvider.getContextParam p k w).
Proof.
  intros Hp Hl. cbn.
  assert (Hp' : services (ContextProvider.addContextParam p newParam (contextSide s)) !! p
                = Some cp).
  { unfold ContextProvider.addContextParam. by rewrite Hp. }
  assert (Hc : contents (ContextProvider.addContextParam p newParam (contextSide s)) p
               = l ++ [newParam]).
  { unfold ContextProvider.addContextParam, contents. rewrite Hp. cbn. rewrite Hp. cbn.
    apply deref_lookup. by apply lookup_push. }
  assert (Hc0 : contents (contextSide s) p = l).
  { unfold contents. rewrite Hp. cbn. by apply deref_lookup. }
  split.
  - rewrite (getContextParam_contents _ _ _ _ Hp'), (getContextParam_contents _ _ _ _ Hp).
    by rewrite Hc, Hc0, find_snoc, String.eqb_refl.
  - intros k Hk.
    rewrite (getContextParam_contents _ _ _ _ Hp'), (getContextParam_contents _ _ _ _ Hp).
    rewrite Hc, Hc0, find_snoc.
    destruct (String.eqb_spec (key newParam) k); [congruence|].
    by destruct (List.find _ l).
Qed.

(** The provider's record and array after [modifyContextParam] on a key it
    holds. *)
Lemma modifyContextParam_contents p k newValue w cp l oldParam :
  services w !! p = Some cp ->
  arrays w !! items cp = Some l ->
  List.find (fun param => String.eqb (key param) k) l = Some oldParam ->
  let w' := ContextProvider.modifyContextParam p k newValue w in
  is_Some (services w' !! p) /\
  contents w' p
  = List.filter (fun param => negb (String.eqb (key param) k)) l
    ++ [mkContextParam (contextOfUse oldParam) (type oldParam) (key oldParam) newValue].
Proof.
  intros Hp Hl Hfind. cbn.
  unfold ContextProvider.modifyContextParam, ContextProvider.getContextParam.
  rewrite Hp, (deref_lookup _ _ _ Hl), Hfind.
  destruct (removeContextParam_contents p k w cp l Hp Hl) as (Hp' & Harr & _).
  cbn in Hp', Harr.
  unfold ContextProvider.addContextParam. rewrite Hp'. cbn.
  unfold contents. cbn. rewrite Hp'. cbn. split; [by eexists|].
  apply deref_lookup, lookup_push. rewrite Harr. by rewrite lookup_app_r, Nat.sub_diag.
Qed.

(** X11.  Looking a key up after [modifyContextParam]: for a key the provider
    holds, [getContextParam] returns the parameter with the new value and the
    other fields of the first match; the parameters of other keys are found
    as before. *)
Theorem getContextParam_after_modifyContextParam s p cp l k newValue oldParam :
  services (contextSide s) !! p = Some cp ->
  arrays (contextSide s) !! items cp = Some l ->
  ContextProvider.getContextParam p k (contextSide s) = Some oldParam ->
  let w' := contextSide (step (ModifyContextParam p k newValue) s) in
  ContextProvider.getContextParam p k w'
  = Some (mkContextParam (contextOfUse oldParam) (type oldParam) k newValue) /\
  (forall k', k' <> k ->
              ContextProvider.getContextParam p k' w'
              = ContextProvider.getContextParam p k' (contextSide s)).
Proof.
  intros Hp Hl Hget. cbn.
  rewrite (getContextParam_contents _ _ _ _ Hp) in Hget.
  assert (Hc0 : contents (contextSide s) p = l).
  { unfold contents. rewrite Hp. cbn. by apply deref_lookup. }
  rewrite Hc0 in Hget.
  destruct (modifyContextParam_contents p k newValue (contextSide s) cp l oldParam Hp Hl Hget)
    as ([cp' Hp'] & Hc).
  cbn in Hp', Hc.
  assert (Hkey : key oldParam = k).
  { apply find_some in Hget as [_ H]. by apply String.eqb_eq. }
  split.
  - rewrite (getContextParam_contents _ _ _ _ Hp'), Hc, find_snoc, find_absent.
    + cbn. by rewrite Hkey, String.eqb_refl.
    + intros y [_ Hy]%filter_In. by apply negb_true_iff in Hy.
  - intros k' Hk'.
    rewrite (getContextParam_contents _ _ _ _ Hp'), (getContextParam_contents _ _ _ _ Hp).
    rewrite Hc, Hc0, find_snoc, find_filter.
    + cbn. rewrite Hkey. destruct (String.eqb_spec k k'); [congruence|].
      by destruct (List.find (fun param : ContextParam => String.eqb (key param) k') l).
    + intros x Hx. apply String.eqb_eq in Hx. apply negb_true_iff, String.eqb_neq.
      congruence.
Qed.

(** X13.  Arrays are shared with the subject.  Once a provider has called
    [updateContext], its subject holds the provider's own array; a parameter
    added afterwards is therefore part of the provider's latest snapshot, the
    one the join merges, although nothing has been emitted or published. *)
Theorem parameter_added_after_emission_is_in_the_snapshot s p cp l newParam :
  services (contextSide s) !! p = Some cp ->
  arrays (contextSide s) !! items cp = Some l ->
  let s1 := step (UpdateContext p) s in
  let s2 := step (AddContextParam p newParam) s1 in
  latest (contextSide s1) p = l /\
  latest (contextSide s2) p = l ++ [newParam] /\
  trace s2 = trace s1 /\
  AdaptationController.getContext s2 = AdaptationController.getContext s1.
Proof.
  intros Hp Hl. cbn.
  destruct (contextNext_trace p (ContextProvider.updateContext p (contextSide s)) s)
    as (evs & _ & _ & _ & _ & Hside & _).
  cbn in Hside. rewrite Hside. unfold ContextProvider.updateContext.
  destruct (next_emitted (contextSide s) p cp Hp) as (Harr & _ & _ & Hlat).
  rewrite (deref_lookup _ _ _ Hl) in Hlat.
  split; [done|]. split; [|done].
  assert (Hp1 : services (fst (next p (contextSide s))) !! p
                = Some (mkProvider (items cp) (mkSubject (items cp) (observers (subject cp))))).
  { unfold next. rewrite Hp. destruct (deliver _ _ _ _) as [j outs]. cbn.
    apply list_lookup_insert_eq. by eapply lookup_lt_Some. }
  unfold ContextProvider.addContextParam. rewrite Hp1. cbn.
  unfold latest, currentOf. cbn. rewrite Hp1, Harr. cbn.
  apply deref_lookup. by apply lookup_push.
Qed.

(** X14.  Parameters a provider adds before its first [updateContext] (in
    its constructor, for instance) are not published by its registration.
    The subject of a new provider holds an empty array of its own, so the
    registration publishes the snapshots of the providers registered before
    and nothing for the new one. *)
Theorem initial_parameters_wait_for_updateContext s newParam :
  joined (contextSide s) ->
  let p := length (services (contextSide s)) in
  let s' := run [NewContextProvider; AddContextParam p newParam;
                 RegisterContextProvider p] s in
  registered (contextSide s') = registered (contextSide s) ++ [p] /\
  latest (contextSide s') p = [] /\
  AdaptationController.getContext s'
  = concat (map (latest (contextSide s')) (registered (contextSide s))) /\
  exists evs,
    trace s' = trace s ++ evs /\
    contextUpdates evs = [AdaptationController.getContext s'].
Proof.
  intros Hj p. cbn zeta.
  change (run [NewContextProvider; AddContextParam p newParam; RegisterContextProvider p] s)
    with (AdaptationController.registerContextProvider p
            (set_contextSide
               (ContextProvider.addContextParam p newParam
                  (contextSide (set_contextSide (fst (construct (contextSide s))) s)))
               (set_contextSide (fst (construct (contextSide s))) s))).
  set (s1 := set_contextSide (fst (construct (contextSide s))) s).
  set (s2 := set_contextSide
               (ContextProvider.addContextParam p newParam (contextSide s1)) s1).
  assert (Hj2 : joined (contextSide s2)).
  { cbn. by apply joined_addContextParam, joined_construct. }
  assert (Hp1 : services (contextSide s1) !! p
                = Some (mkProvider (length (arrays (contextSide s)))
                          (mkSubject (S (length (arrays (contextSide s)))) []))).
  { cbn. rewrite lookup_app_r by done. unfold p. rewrite Nat.sub_diag. cbn.
    by rewrite length_app, Nat.add_1_r. }
  assert (Hp2 : services (contextSide s2) !! p = services (contextSide s1) !! p).
  { cbn [s2 contextSide set_contextSide]. unfold ContextProvider.addContextParam.
    by rewrite Hp1. }
  assert (Hlat2 : latest (contextSide s2) p = []).
  { unfold latest, currentOf. rewrite Hp2, Hp1. cbn [from_option subject current].
    cbn [s2 contextSide set_contextSide]. unfold ContextProvider.addContextParam.
    rewrite Hp1. cbn. apply deref_lookup.
    rewrite list_lookup_alter_ne by lia.
    rewrite lookup_app_r by (rewrite length_app; cbn; lia).
    rewrite length_app. cbn. by replace (S _ - _) with 0 by lia. }
  assert (Hr2 : registered (contextSide s2) = registered (contextSide s)).
  { cbn [s2 contextSide set_contextSide]. unfold ContextProvider.addContextParam.
    by rewrite Hp1. }
  assert (Ht2 : trace s2 = trace s) by done.
  destruct (registerContextProvider_trace s2 p Hj2 ltac:(rewrite Hp2, Hp1; by eexists))
    as (_ & Hregs & _ & Hlat & Hctx & evs & Ht & _ & Hcu & _).
  cbn zeta in Hregs, Hlat, Hctx, Ht, Hcu.
  set (s3 := AdaptationController.registerContextProvider p s2) in *.
  rewrite Hr2 in Hregs. rewrite Ht2 in Ht.
  unfold AdaptationController.getContext.
  assert (Hm : mergedLatest (contextSide s3)
               = concat (map (latest (contextSide s3)) (registered (contextSide s)))).
  { unfold mergedLatest. rewrite Hregs, map_app, concat_app. cbn.
    by rewrite Hlat, Hlat2, !app_nil_r. }
  split; [exact Hregs|]. split; [by rewrite Hlat|].
  split; [by rewrite Hctx, Hm|].
  exists evs. split; [exact Ht|]. by rewrite Hcu, Hctx.
Qed.

(* ===================================================================== *)
(** ** More about rule providers and widgets                              *)
(* ===================================================================== *)

(** The producer's record after its own [next]. *)
Lemma next_service {A : Type} (w : Aggregator A) p pr :
  services w !! p = Some pr ->
  services (fst (next p w)) !! p
  = Some (mkProvider (items pr) (mkSubject (items pr) (observers (subject pr)))).
Proof.
  intros Hp. unfold next. rewrite Hp. destruct (deliver _ _ _ _) as [j outs]. cbn.
  apply list_lookup_insert_eq. by eapply lookup_lt_Some.
Qed.

(** The provider's rule set and snapshot after [removeRule]. *)
Lemma removeRule_contents p n w rp l :
  services w !! p = Some rp ->
  arrays w !! items rp = Some l ->
  let kept := List.filter (fun rule => negb (String.eqb (AdaptationRule.name rule) n)) l in
  let w' := fst (RuleProvider.removeRule p n w) in
  contents w' p = kept /\ latest w' p = kept /\ emitted w' p = [kept].
Proof.
  intros Hp Hl. cbn zeta. unfold RuleProvider.removeRule.
  rewrite Hp, (deref_lookup _ _ _ Hl). cbn [alloc].
  set (kept := List.filter _ l).
  set (w1 := mkAggregator (arrays w ++ [kept])
               (<[p := mkProvider (length (arrays w)) (subject rp)]> (services w))
               (registered w) (join w)).
  assert (Hp1 : services w1 !! p = Some (mkProvider (length (arrays w)) (subject rp))).
  { cbn. apply list_lookup_insert_eq. by eapply lookup_lt_Some. }
  destruct (next_emitted w1 p _ Hp1) as (_ & Hem & Hc & Hlat).
  assert (Hnew : deref (arrays w1) (length (arrays w)) = kept).
  { apply deref_lookup. cbn. by rewrite lookup_app_r, Nat.sub_diag. }
  cbn [items] in Hem, Hc, Hlat. by rewrite Hnew in *.
Qed.

(** X12.  [removeRule] drops every rule that carries the name, duplicates
    included, keeps the others in order, and emits the resulting rule set as
    the provider's new snapshot. *)
Theorem removeRule_removes_every_match s p rp l n :
  services (ruleSide s) !! p = Some rp ->
  arrays (ruleSide s) !! items rp = Some l ->
  let s' := step (RemoveRule p n) s in
  let kept := List.filter (fun rule => negb (String.eqb (AdaptationRule.name rule) n)) l in
  contents (ruleSide s') p = kept /\
  latest (ruleSide s') p = kept /\
  Forall (fun rule => AdaptationRule.name rule <> n) (contents (ruleSide s') p) /\
  exists evs, trace s' = trace s ++ evs /\ ruleSnapshots evs = [(p, kept)].
Proof.
  intros Hp Hl. cbn zeta. cbn [step].
  destruct (ruleNext_trace p (RuleProvider.removeRule p n (ruleSide s)) s)
    as (evs & Htr & Hrs & _ & _ & _ & Hside & _).
  cbn zeta in Htr, Hside. rewrite Hside.
  destruct (removeRule_contents p n (ruleSide s) rp l Hp Hl) as (Hc & Hlat & Hem).
  cbn zeta in Hc, Hlat, Hem. rewrite Hc, Hlat.
  split; [done|]. split; [done|]. split.
  - apply Forall_forall. intros rule [_ H]%list_elem_of_In%filter_In.
    by apply negb_true_iff, String.eqb_neq in H.
  - eexists. split; [exact Htr|]. by rewrite Hem, ruleSnapshots_app, Hrs.
Qed.

(** X17.  Adding a rule and removing it by its name gives back the rule set
    the provider had, provided no rule of that name was in it before; the
    provider's snapshot is that rule set again. *)
Theorem addRule_then_removeRule s p rp l rule :
  services (ruleSide s) !! p = Some rp ->
  arrays (ruleSide s) !! items rp = Some l ->
  (forall r, In r l -> AdaptationRule.name r <> AdaptationRule.name rule) ->
  let s' := run [AddRule p rule; RemoveRule p (AdaptationRule.name rule)] s in
  contents (ruleSide s') p = l /\ latest (ruleSide s') p = l.
Proof.
  intros Hp Hl Hfresh. cbn zeta.
  change (run [AddRule p rule; RemoveRule p (AdaptationRule.name rule)] s)
    with (step (RemoveRule p (AdaptationRule.name rule)) (step (AddRule p rule) s)).
  set (s1 := step (AddRule p rule) s).
  assert (Hside1 : ruleSide s1
                   = fst (next p (mkAggregator (push (items rp) rule (arrays (ruleSide s)))
                                    (services (ruleSide s)) (registered (ruleSide s))
                                    (join (ruleSide s))))).
  { unfold s1. cbn [step].
    destruct (ruleNext_trace p (RuleProvider.addRule p rule (ruleSide s)) s)
      as (evs & _ & _ & _ & _ & _ & Hside & _).
    cbn zeta in Hside. rewrite Hside. unfold RuleProvider.addRule. by rewrite Hp. }
  set (w1 := mkAggregator _ _ _ _) in Hside1.
  assert (Hp1 : services (ruleSide s1) !! p
                = Some (mkProvider (items rp)
                          (mkSubject (items rp) (observers (subject rp))))).
  { rewrite Hside1. by apply (next_service w1 p rp). }
  assert (Hl1 : arrays (ruleSide s1) !! items rp = Some (l ++ [rule])).
  { rewrite Hside1. destruct (next_emitted w1 p rp Hp) as (-> & _).
    cbn. by apply lookup_push. }
  cbn [step].
  destruct (ruleNext_trace p (RuleProvider.removeRule p (AdaptationRule.name rule)
                                (ruleSide s1)) s1)
    as (evs & _ & _ & _ & _ & _ & Hside & _).
  cbn zeta in Hside. rewrite Hside.
  destruct (removeRule_contents p (AdaptationRule.name rule) (ruleSide s1) _ _ Hp1 Hl1)
    as (Hc & Hlat & _).
  cbn zeta in Hc, Hlat. rewrite Hc, Hlat.
  assert (Hkept : List.filter
                    (fun r => negb (String.eqb (AdaptationRule.name r)
                                               (AdaptationRule.name rule)))
                    (l ++ [rule]) = l).
  { rewrite List.filter_app. cbn. rewrite String.eqb_refl. cbn. rewrite app_nil_r.
    apply filter_all. intros r Hr. apply negb_true_iff, String.eqb_neq. by apply Hfresh. }
  by rewrite Hkept.
Qed.

(** X15.  The filter reads the widget's namespace when an action arrives, not
    when the widget subscribes in its constructor: once the input binding has
    assigned the namespace, an action scoped to that namespace is delivered,
    whatever the namespace was before. *)
Theorem namespace_is_read_at_delivery d i w ns action :
  widgets d !! i = Some w ->
  In i (actionObservers d) ->
  AdaptationAction.target action = name w ->
  AdaptationAction.scope action = Some [ns] ->
  In (Adapt i action)
     (snd (ActionStream.next action (AdaptiveWidget.setNamespace i ns d))) /\
  (namespace w <> ns -> ~ In (Adapt i action) (snd (ActionStream.next action d))).
Proof.
  intros Hw Hin Ht Hsc. split.
  - apply (delivery_with_scope (AdaptiveWidget.setNamespace i ns d) i
             (mkWidget (name w) ns (adapt w)) action [ns]).
    + cbn. by rewrite list_lookup_alter_eq, Hw.
    + done.
    + done.
    + cbn. split; [done|]. right. by left.
  - intros Hne H.
    apply (delivery_with_scope d i w action [ns] Hw Hin Hsc) in H as [_ [H|H]]; [done|].
    cbn in H. destruct H as [H|[]]. congruence.
Qed.

(* ===================================================================== *)
(** ** Further instances on the example application                       *)
(* ===================================================================== *)

(** An action for the right button reaches the right button once and the
    left button not at all. *)
Lemma delivery_exactly_once_witness :
  let d := adaptationActions twoButtons in
  let action := button (Some ["rightBtn"%string]) "HIDE"%string in
  adaptations 1 (snd (ActionStream.next action d)) = [action] /\
  adaptations 0 (snd (ActionStream.next action d)) = [].
Proof.
  assert (Hnd : NoDup (actionObservers (adaptationActions twoButtons))).
  { simpl. apply NoDup_cons. split; [|apply NoDup_singleton].
    intros H%list_elem_of_In. simpl in H. intuition lia. }
  split.
  - apply (delivery_exactly_once (adaptationActions twoButtons) 1
             (mkWidget "HideableButtonAW"%string "rightBtn"%string AdaptiveWidget.base_adapt)
             (button (Some ["rightBtn"%string]) "HIDE"%string) ["rightBtn"%string]).
    + exact Hnd.
    + reflexivity.
    + simpl. tauto.
    + reflexivity.
    + simpl. tauto.
  - apply (delivery_exactly_once (adaptationActions twoButtons) 0
             (mkWidget "HideableButtonAW"%string "leftBtn"%string (fun _ => Throws))
             (button (Some ["rightBtn"%string]) "HIDE"%string) ["rightBtn"%string]).
    + exact Hnd.
    + reflexivity.
    + simpl. tauto.
    + reflexivity.
    + simpl. intros [_ [H|[H|[]]]]; discriminate.
Defined.

(** An action for a widget type nobody implements. *)
Lemma foreign_target_is_ignored_witness :
  ActionStream.next (AdaptationAction.mk "Slider"%string None "HIDE"%string None)
                    (adaptationActions twoButtons)
  = (adaptationActions twoButtons, []).
Proof.
  apply foreign_target_is_ignored.
  intros [|[|i]] w; simpl; intros [= <-]; discriminate.
Defined.

(** The left button throws on a broadcast and is gone; the right one stays. *)
Lemma failed_widget_is_unsubscribed_witness :
  let d' := fst (ActionStream.next (button (Some []) "HIDE"%string)
                                   (adaptationActions twoButtons)) in
  ~ In 0 (actionObservers d') /\ In 1 (actionObservers d').
Proof.
  destruct (failed_widget_is_unsubscribed (adaptationActions twoButtons) 0
              (button (Some []) "HIDE"%string))
    as (Hgone & _ & Hstay).
  - simpl. tauto.
  - reflexivity.
  - split; [exact Hgone|]. apply Hstay; [simpl; tauto | reflexivity].
Defined.

(** A second registration of the rule provider, and an emission of it. *)
Lemma merged_rule_stream_witness :
  (let s' := AdaptationController.registerRuleProvider 0 oneRuleProvider in
   AdaptationController.getRules s' = [USER_IS_RIGHT_HANDED; USER_IS_RIGHT_HANDED]) /\
  (let s' := step (UpdateRules 0) oneRuleProvider in
   exists evs,
     trace s' = trace oneRuleProvider ++ evs /\
     ruleSnapshots evs = [(0, [USER_IS_RIGHT_HANDED])] /\
     triggers evs = 1).
Proof.
  assert (Hj : joined (ruleSide oneRuleProvider)).
  { repeat split.
    - repeat constructor.
    - intros [|p] pr; simpl; [intros [= <-]; reflexivity | discriminate]. }
  destruct (merged_rule_stream oneRuleProvider Hj) as [Hreg Hemit].
  split.
  - destruct (Hreg 0) as (_ & _ & H & _); [by eexists|]. exact H.
  - destruct (Hemit 0) as (_ & evs & Ht & Hrs & _ & Htr & _); [by eexists|].
    exists evs. split; [exact Ht|]. split; [exact Hrs|]. exact Htr.
Defined.

(** The first provider emits before it is registered. *)
Lemma emission_before_registration_is_replayed_witness :
  let s1 := step (UpdateContext 0) twoContextProviders in
  let s2 := AdaptationController.registerContextProvider 0 s1 in
  AdaptationController.getContext s1 = [] /\
  exists evs,
    trace s2 = trace s1 ++ evs /\
    contextSnapshots evs = [] /\
    contextUpdates evs = [[handedness "unknown"%string]].
Proof.
  destruct (emission_before_registration_is_replayed twoContextProviders 0
              (mkProvider 0 (mkSubject 1 [])) [handedness "unknown"%string])
    as (_ & Hctx & Hpub).
  - repeat split.
    + repeat constructor.
    + intros [|[|p]] pr; simpl; [intros [= <-]; reflexivity.. | discriminate].
  - reflexivity.
  - reflexivity.
  - simpl. tauto.
  - split; [exact Hctx|]. exact Hpub.
Defined.

(** Removing the [handedness] parameter of the first provider. *)
Lemma removeContextParam_removes_every_match_witness :
  let s' := step (RemoveContextParam 0 "handedness"%string) twoContextProviders in
  contents (contextSide s') 0 = [] /\
  ContextProvider.getContextParam 0 "handedness"%string (contextSide s') = None /\
  latest (contextSide s') 0 = [].
Proof.
  destruct (removeContextParam_removes_every_match twoContextProviders 0
              (mkProvider 0 (mkSubject 1 [])) [handedness "unknown"%string]
              "handedness"%string [] eq_refl eq_refl eq_refl)
    as (Hc & Hget & _ & _ & _ & Hlat).
  split; [exact Hc|]. split; [exact Hget|]. exact Hlat.
Defined.

(** A second [handedness] parameter is shadowed by the first. *)
Lemma getContextParam_after_addContextParam_witness :
  ContextProvider.getContextParam 0 "handedness"%string
    (contextSide (step (AddContextParam 0 (handedness "left"%string)) twoContextProviders))
  = Some (handedness "unknown"%string).
Proof.
  destruct (getContextParam_after_addContextParam twoContextProviders 0
              (mkProvider 0 (mkSubject 1 [])) [handedness "unknown"%string]
              (handedness "left"%string) eq_refl eq_refl)
    as [H _].
  exact H.
Defined.

(** The modified [handedness] parameter is found with its new value. *)
Lemma getContextParam_after_modifyContextParam_witness :
  ContextProvider.getContextParam 0 "handedness"%string
    (contextSide (step (ModifyContextParam 0 "handedness"%string (JsString "left"%string))
                       twoContextProviders))
  = Some (handedness "left"%string).
Proof.
  destruct (getContextParam_after_modifyContextParam twoContextProviders 0
              (mkProvider 0 (mkSubject 1 [])) [handedness "unknown"%string]
              "handedness"%string (JsString "left"%string) (handedness "unknown"%string)
              eq_refl eq_refl eq_refl)
    as [H _].
  exact H.
Defined.

(** The first provider emits and then adds a parameter. *)
Lemma parameter_added_after_emission_is_in_the_snapshot_witness :
  let s1 := step (UpdateContext 0) twoContextProviders in
  let s2 := step (AddContextParam 0 (handedness "left"%string)) s1 in
  latest (contextSide s1) 0 = [handedness "unknown"%string] /\
  latest (contextSide s2) 0 = [handedness "unknown"%string; handedness "left"%string] /\
  trace s2 = trace s1.
Proof.
  destruct (parameter_added_after_emission_is_in_the_snapshot twoContextProviders 0
              (mkProvider 0 (mkSubject 1 [])) [handedness "unknown"%string]
              (handedness "left"%string) eq_refl eq_refl)
    as (H1 & H2 & H3 & _).
  split; [exact H1|]. split; [exact H2|exact H3].
Defined.

(** A third provider is constructed with a parameter and registered. *)
Lemma initial_parameters_wait_for_updateContext_witness :
  let s' := run [NewContextProvider; AddContextParam 2 (handedness "left"%string);
                 RegisterContextProvider 2] oneProducerPublished in
  registered (contextSide s') = [0; 2] /\
  latest (contextSide s') 2 = [] /\
  AdaptationController.getContext s' = [handedness "unknown"%string].
Proof.
  destruct (initial_parameters_wait_for_updateContext oneProducerPublished
              (handedness "left"%string))
    as (Hregs & Hlat & Hctx & _).
  - repeat split.
    + repeat constructor.
    + intros [|[|p]] pr; simpl; [intros [= <-]; reflexivity.. | discriminate].
  - split; [exact Hregs|]. split; [exact Hlat|]. exact Hctx.
Defined.

(** Removing the only rule of the provider. *)
Lemma removeRule_removes_every_match_witness :
  let s' := step (RemoveRule 0 "USER_IS_RIGHT_HANDED"%string) oneRuleProvider in
  contents (ruleSide s') 0 = [] /\ latest (ruleSide s') 0 = [].
Proof.
  destruct (removeRule_removes_every_match oneRuleProvider 0
              (mkProvider 0 (mkSubject 0 [0])) [USER_IS_RIGHT_HANDED]
              "USER_IS_RIGHT_HANDED"%string eq_refl eq_refl)
    as (Hc & Hlat & _).
  split; [exact Hc|exact Hlat].
Defined.

(** The second rule is added and removed again. *)
Lemma addRule_then_removeRule_witness :
  let s' := run [AddRule 0 USER_IS_LEFT_HANDED;
                 RemoveRule 0 "USER_IS_LEFT_HANDED"%string] oneRuleProvider in
  contents (ruleSide s') 0 = [USER_IS_RIGHT_HANDED] /\
  latest (ruleSide s') 0 = [USER_IS_RIGHT_HANDED].
Proof.
  apply (addRule_then_removeRule oneRuleProvider 0
           (mkProvider 0 (mkSubject 0 [0])) [USER_IS_RIGHT_HANDED] USER_IS_LEFT_HANDED).
  - reflexivity.
  - reflexivity.
  - simpl. intros r [<-|[]]. discriminate.
Defined.

(** The right button is given another namespace. *)
Lemma namespace_is_read_at_delivery_witness :
  let action := button (Some ["menu"%string]) "HIDE"%string in
  In (Adapt 1 action)
     (snd (ActionStream.next action
             (AdaptiveWidget.setNamespace 1 "menu"%string (adaptationActions twoButtons)))) /\
  ~ In (Adapt 1 action) (snd (ActionStream.next action (adaptationActions twoButtons))).
Proof.
  destruct (namespace_is_read_at_delivery (adaptationActions twoButtons) 1
              (mkWidget "HideableButtonAW"%string "rightBtn"%string AdaptiveWidget.base_adapt)
              "menu"%string (button (Some ["menu"%string]) "HIDE"%string))
    as [Hyes Hno].
  - reflexivity.
  - simpl. tauto.
  - reflexivity.
  - reflexivity.
  - split; [exact Hyes|]. apply Hno. discriminate.
Defined.
